(** * Kinetic object auditor: a shallow embedding of [kinetic_swift/obj/auditor.py]

    The auditor is a Python class whose methods mutate [self], talk to a
    storage back end, read the clock and raise exceptions.  The embedding
    below keeps that shape: an explicit state ([self], the store, the
    clock/random environment, a trace of the calls that leave the process)
    threaded through a state-and-exception monad.  Code that is not part of
    the auditor module (Python builtins, the Swift helpers, the Kinetic disk
    file manager, the ring) is taken as a parameter through two interfaces,
    [Platform] and [Backend].

    Conventions of the model:
    - every exception is an instance of [Exception], the class the two
      catch-all handlers of the module name;
    - an iterator over a back end (the keys of a device, the chunks of an
      object) yields what the store holds when the iteration starts;
    - a Python [set] is iterated in the order of [elements];
    - floats, the clock and the digest are abstract: the statements hold for
      every implementation of them. *)

From Stdlib Require Import ZArith Lia.
From stdpp Require Import gmap strings list fin_maps.

Unset Default Proof Using.
Open Scope Z_scope.

(** ** Exceptions and results *)

(** The exception classes the module names, plus the builtin ones its
    expressions can raise.  All of them derive from [Exception], which is
    what the two catch-all handlers of the module intercept. *)
Inductive exn : Type :=
  | DiskFileNotExist
  | DiskFileDeviceUnavailable
  | KeyError (key : string)
  | TypeError
  | ValueError
  | OtherException (name : string).

Inductive res (A : Type) : Type :=
  | Ok (a : A)
  | Raise (e : exn).
Arguments Ok {A} a.
Arguments Raise {A} e.

Definition is_Ok {A} (r : res A) : bool :=
  match r with Ok _ => true | Raise _ => false end.

(** A Python iterator that yields finitely many items and then either stops
    or raises. *)
Definition stream (A : Type) : Type := (list A * option exn)%type.

(** ** The platform: builtins, clock, Swift helpers *)

Class Platform : Type := {
  float : Type;
  float_of_int : Z -> float;
  py_float : string -> option float;        (* float(s); None is ValueError *)
  py_int : string -> option Z;              (* int(s); None is ValueError *)
  fsub : float -> float -> float;
  fmul : float -> float -> float;
  flt : float -> float -> bool;
  (* hashlib.md5 *)
  md5 : Type;
  md5_new : md5;
  md5_update : md5 -> list Byte.byte -> md5;
  md5_hexdigest : md5 -> string;
  (* time and random *)
  Env : Type;
  time_time : Env -> float * Env;
  time_sleep : float -> Env -> Env;
  random_random : Env -> float * Env;
  (* swift.obj.auditor.ratelimit_sleep(running_time, max_rate, incr_by) *)
  ratelimit_sleep : float -> float -> Z -> Env -> float * Env;
  (* swift.common.utils.list_from_csv *)
  list_from_csv : option string -> list string;
}.

(** ** The back end: disk file manager, connections, ring *)

Class Backend : Type := {
  Store : Type;
  HostPort : Type;
  Conn : Type;
  DiskFile : Type;
  get_device_host_and_port : string -> res HostPort;
  get_connection : Store -> HostPort -> res Conn;
  iterKeyRange : Store -> Conn -> string -> string -> stream string;
  get_diskfile_from_audit_location : Store -> string -> string -> res DiskFile;
  df_open : Store -> DiskFile -> res unit;
  df_get_metadata : Store -> DiskFile -> res (gmap string string);
  df_iter : Store -> DiskFile -> stream (list Byte.byte);
  df_quarantine : Store -> DiskFile -> res unit * Store;
  (* swift.common.storage_policy.POLICIES, already mapped through int() *)
  POLICIES : list Z;
  (* POLICIES.get_object_ring(policy, swift_dir).devs: a list whose entries
     are dicts or None *)
  get_object_ring_devs : Z -> string -> list (option (gmap string string));
}.

Section Auditor.
Context `{PF : Platform} `{BE : Backend}.

(** ** The auditor object *)

(** Everything [reset_stats] assigns. [stats] is a [defaultdict(int)]. *)
Record Counters : Type := {
  stats : gmap string Z;
  bytes_running_time : float;
  bytes_processed : Z;
  total_bytes_processed : Z;
  total_files_processed : Z;
  passes : Z;
  quarantines : Z;
  errors : Z;
}.

Record Auditor : Type := {
  swift_dir : string;
  max_files_per_second : float;
  max_bytes_per_second : float;
  interval : Z;
  counters : Counters;
}.

Definition stats_get (k : string) (c : Counters) : Z := default 0 (stats c !! k).

(** ** Observable calls *)

Inductive level : Type := Debug | Info | Warning | Error.

Inductive LogMsg : Type :=
  | LogBeginSweep
  | LogSweepCompleted (elapsed : float)
  | LogNotExist (head_key : string)
  | LogSizeMismatch (head_key : string) (size : Z) (expected : option string)
  | LogEtagMismatch (head_key : string) (got : string) (expected : option string)
  | LogObjectException (device location : string)
  | LogUnableToConnect (device : string)
  | LogDeviceException (device : string)
  | LogStartingSweep (devices : list string)
  | LogFinishedSweep (devices : list string) (elapsed : float) (st : gmap string Z).

Inductive Event : Type :=
  | EvConnect (hp : HostPort)
  | EvOpen (device head_key : string)
  | EvRead (device head_key : string) (chunk_len : Z)
  | EvRatelimit (running_time max_rate : float) (incr_by : Z)
  | EvQuarantine (device head_key : string)
  | EvLog (lvl : level) (msg : LogMsg)
  | EvTime (t : float)
  | EvRandom (x : float)
  | EvSleep (d : float)
  | EvRecon (key : string) (value : float).

(** ** Program state and monad *)

(** [history] is ghost state: the snapshot of the counters after each
    assignment to them, oldest first. *)
Record State : Type := {
  self : Auditor;
  store : Store;
  env : Env;
  trace : list Event;
  history : list Counters;
}.

Definition M (A : Type) : Type := State -> res A * State.

Definition ret {A} (a : A) : M A := fun s => (Ok a, s).
Definition raise {A} (e : exn) : M A := fun s => (Raise e, s).
Definition bind {A B} (m : M A) (k : A -> M B) : M B :=
  fun s => match m s with
           | (Ok a, s') => k a s'
           | (Raise e, s') => (Raise e, s')
           end.
(** [try m] runs [m] and hands its outcome, normal or exceptional, to the
    handler that follows; the state changes made before a raise persist. *)
Definition try {A} (m : M A) : M (res A) :=
  fun s => (Ok (m s).1, (m s).2).
Definition lift {A} (r : res A) : M A := fun s => (r, s).

Notation "x <- m ;; k" := (bind m (fun x => k))
  (at level 100, m at next level, right associativity).
Notation "m ;;; k" := (bind m (fun _ => k))
  (at level 100, right associativity).

Fixpoint for_each {A} (body : A -> M unit) (l : list A) : M unit :=
  match l with
  | [] => ret tt
  | x :: l' => body x ;;; for_each body l'
  end.

(** *** Primitive actions *)

Definition emit (e : Event) : M unit :=
  fun s => (Ok tt, {| self := self s; store := store s; env := env s;
                      trace := trace s ++ [e]; history := history s |}).

Definition log (lvl : level) (msg : LogMsg) : M unit := emit (EvLog lvl msg).

(** Reading an attribute of [self]. *)
Definition attr {A} (f : Auditor -> A) : M A := fun s => (Ok (f (self s)), s).
Definition get_store : M Store := fun s => (Ok (store s), s).

Definition with_counters (c : Counters) (a : Auditor) : Auditor :=
  {| swift_dir := swift_dir a; max_files_per_second := max_files_per_second a;
     max_bytes_per_second := max_bytes_per_second a; interval := interval a;
     counters := c |}.

(** An assignment to one of the counters of [self]. *)
Definition assign (f : Counters -> Counters) : M unit :=
  fun s => let c := f (counters (self s)) in
           (Ok tt, {| self := with_counters c (self s); store := store s;
                      env := env s; trace := trace s;
                      history := history s ++ [c] |}).

Definition with_env {A} (f : Env -> A * Env) : M A :=
  fun s => (Ok (f (env s)).1,
            {| self := self s; store := store s; env := (f (env s)).2;
               trace := trace s; history := history s |}).

Definition set_store (st : Store) : M unit :=
  fun s => (Ok tt, {| self := self s; store := st; env := env s;
                      trace := trace s; history := history s |}).

Definition now : M float :=
  t <- with_env time_time ;; emit (EvTime t) ;;; ret t.

Definition sleep (d : float) : M unit :=
  emit (EvSleep d) ;;; with_env (fun e => (tt, time_sleep d e)).

Definition random : M float :=
  x <- with_env random_random ;; emit (EvRandom x) ;;; ret x.

Definition do_ratelimit_sleep (running_time max_rate : float) (incr_by : Z) : M float :=
  emit (EvRatelimit running_time max_rate incr_by) ;;;
  with_env (ratelimit_sleep running_time max_rate incr_by).

Definition dump_recon_cache (key : string) (value : float) : M unit :=
  emit (EvRecon key value).

(** *** Counter updates *)

Definition stats_incr (k : string) (c : Counters) : Counters :=
  {| stats := <[k := stats_get k c + 1]> (stats c);
     bytes_running_time := bytes_running_time c;
     bytes_processed := bytes_processed c;
     total_bytes_processed := total_bytes_processed c;
     total_files_processed := total_files_processed c;
     passes := passes c; quarantines := quarantines c; errors := errors c |}.

Definition set_bytes_running_time (t : float) (c : Counters) : Counters :=
  {| stats := stats c;
     bytes_running_time := t;
     bytes_processed := bytes_processed c;
     total_bytes_processed := total_bytes_processed c;
     total_files_processed := total_files_processed c;
     passes := passes c; quarantines := quarantines c; errors := errors c |}.

Definition add_bytes_processed (n : Z) (c : Counters) : Counters :=
  {| stats := stats c;
     bytes_running_time := bytes_running_time c;
     bytes_processed := bytes_processed c + n;
     total_bytes_processed := total_bytes_processed c;
     total_files_processed := total_files_processed c;
     passes := passes c; quarantines := quarantines c; errors := errors c |}.

Definition add_total_bytes_processed (n : Z) (c : Counters) : Counters :=
  {| stats := stats c;
     bytes_running_time := bytes_running_time c;
     bytes_processed := bytes_processed c;
     total_bytes_processed := total_bytes_processed c + n;
     total_files_processed := total_files_processed c;
     passes := passes c; quarantines := quarantines c; errors := errors c |}.

Definition zero_counters : Counters :=
  {| stats := ∅;
     bytes_running_time := float_of_int 0;
     bytes_processed := 0;
     total_bytes_processed := 0;
     total_files_processed := 0;
     passes := 0; quarantines := 0; errors := 0 |}.

(** ** The methods of [KineticAuditor] *)

(** [__init__]: the configuration is a dict of strings; [float()] of a
    malformed value raises. *)
Definition conf_float (conf : gmap string string) (k : string) (dflt : Z) : res float :=
  match conf !! k with
  | None => Ok (float_of_int dflt)
  | Some v => match py_float v with
              | Some x => Ok x
              | None => Raise ValueError
              end
  end.

Definition __init__ (conf : gmap string string) : res Auditor :=
  let sd := default "/etc/swift"%string (conf !! "swift_dir"%string) in
  match conf_float conf "files_per_second" 20 with
  | Raise e => Raise e
  | Ok fps =>
    match conf_float conf "bytes_per_second" 10000000 with
    | Raise e => Raise e
    | Ok bps =>
      Ok {| swift_dir := sd; max_files_per_second := fps;
            max_bytes_per_second := bps; interval := 30;
            counters := zero_counters |}
    end
  end.

(** [reset_stats] replaces every counter; the eight assignments are taken
    as one step. *)
Definition reset_stats : M unit := assign (fun _ => zero_counters).

(** The list comprehension of [_get_devices]: ring entries that are [None]
    or an empty dict are skipped ([if d]); [d['device']] raises [KeyError]
    on a dict without that key. *)
Fixpoint device_names (devs : list (option (gmap string string))) : res (list string) :=
  match devs with
  | [] => Ok []
  | None :: devs' => device_names devs'
  | Some d :: devs' =>
    if decide (d = ∅) then device_names devs'
    else match d !! "device"%string with
         | None => Raise (KeyError "device")
         | Some name =>
           match device_names devs' with
           | Ok l => Ok (name :: l)
           | Raise e => Raise e
           end
         end
  end.

Definition all_ring_devs (swift_dir : string) : list (option (gmap string string)) :=
  concat (map (fun policy => get_object_ring_devs policy swift_dir) POLICIES).

Definition _get_devices : M (gset string) :=
  dir <- attr swift_dir ;;
  names <- lift (device_names (all_ring_devs dir)) ;;
  ret (list_to_set names).

(** [_find_objects] is a generator: its body runs when the loop of
    [_audit_device] asks for the first key.  The keys the range iterator
    yields are those of the store at that moment. *)
Definition _find_objects (device : string) : M (stream string) :=
  hp <- lift (get_device_host_and_port device) ;;
  emit (EvConnect hp) ;;;
  st <- get_store ;;
  conn <- lift (get_connection st hp) ;;
  let start_key := "objects"%string in
  let end_key := "objects/"%string in
  ret (iterKeyRange st conn start_key end_key).

(** The body of [for chunk in df] in [_audit_object]. *)
Definition audit_chunk (device head_key : string) (acc : md5 * Z)
    (chunk : list Byte.byte) : M (md5 * Z) :=
  let '(etag, size) := acc in
  emit (EvRead device head_key (Z.of_nat (length chunk))) ;;;
  let chunk_len := Z.of_nat (length chunk) in
  let etag := md5_update etag chunk in
  let size := size + chunk_len in
  running_time <- attr (fun a => bytes_running_time (counters a)) ;;
  max_rate <- attr max_bytes_per_second ;;
  t <- do_ratelimit_sleep running_time max_rate chunk_len ;;
  assign (set_bytes_running_time t) ;;;
  assign (add_bytes_processed chunk_len) ;;;
  assign (add_total_bytes_processed chunk_len) ;;;
  ret (etag, size).

Fixpoint audit_chunks (device head_key : string) (acc : md5 * Z)
    (chunks : list (list Byte.byte)) : M (md5 * Z) :=
  match chunks with
  | [] => ret acc
  | chunk :: chunks' =>
    acc' <- audit_chunk device head_key acc chunk ;;
    audit_chunks device head_key acc' chunks'
  end.

(** [int(metadata.get('Content-Length'))] *)
Definition int_of_header (v : option string) : res Z :=
  match v with
  | None => Raise TypeError
  | Some s => match py_int s with
              | Some n => Ok n
              | None => Raise ValueError
              end
  end.

Definition quarantine (device head_key : string) (df : DiskFile) : M unit :=
  emit (EvQuarantine device head_key) ;;;
  st <- get_store ;;
  let '(r, st') := df_quarantine st df in
  set_store st' ;;;
  lift r.

Definition _audit_object (device head_key : string) : M bool :=
  st <- get_store ;;
  df <- lift (get_diskfile_from_audit_location st device head_key) ;;
  emit (EvOpen device head_key) ;;;
  st <- get_store ;;
  f <- try (lift (df_open st df)) ;;
  match f with
  | Raise DiskFileNotExist =>
    log Debug (LogNotExist head_key) ;;;
    ret true
  | Raise e => raise e
  | Ok _ =>
    let etag := md5_new in
    let size := 0 in
    st <- get_store ;;
    metadata <- lift (df_get_metadata st df) ;;
    st <- get_store ;;
    let '(chunks, stop) := df_iter st df in
    acc <- audit_chunks device head_key (etag, size) chunks ;;
    let '(etag, size) := acc in
    match stop with Some e => raise e | None => ret tt end ;;;
    expected_size <- lift (int_of_header (metadata !! "Content-Length"%string)) ;;
    if negb (size =? expected_size) then
      log Warning (LogSizeMismatch head_key size (metadata !! "Content-Length"%string)) ;;;
      quarantine device head_key df ;;;
      ret false
    else
      let got_etag := md5_hexdigest etag in
      let expected_etag := metadata !! "ETag"%string in
      if negb (bool_decide (Some got_etag = expected_etag)) then
        log Warning (LogEtagMismatch head_key got_etag expected_etag) ;;;
        quarantine device head_key df ;;;
        ret false
      else ret true
  end.

Definition audit_object (device location : string) : M bool :=
  r <- try (_audit_object device location) ;;
  match r with
  | Ok success => ret success
  | Raise _ =>
    log Error (LogObjectException device location) ;;;
    ret false
  end.

(** The body of the loop of [_audit_device]. *)
Definition audit_location (device location : string) : M unit :=
  assign (stats_incr "found_objects") ;;;
  success <- audit_object device location ;;
  if success then assign (stats_incr "success")
  else assign (stats_incr "failures").

Definition _audit_device (device : string) : M unit :=
  found <- _find_objects device ;;
  let '(locations, stop) := found in
  for_each (audit_location device) locations ;;;
  match stop with Some e => raise e | None => ret tt end.

Definition audit_device (device : string) : M unit :=
  r <- try (_audit_device device) ;;
  success <-
    match r with
    | Raise DiskFileDeviceUnavailable =>
      log Warning (LogUnableToConnect device) ;;; ret false
    | Raise _ =>
      log Error (LogDeviceException device) ;;; ret false
    | Ok _ => ret true
    end ;;
  if success : bool then assign (stats_incr "device.success")
  else assign (stats_incr "device.failures").

(** [devices = override_devices or self._get_devices()]: a non-empty list
    is used as it is; otherwise the set of ring devices is iterated. *)
Definition sweep_devices (devices_arg : option string) : M (list string) :=
  let override_devices := list_from_csv devices_arg in
  match override_devices with
  | [] => ds <- _get_devices ;; ret (elements ds)
  | _ :: _ => ret override_devices
  end.

Definition run_once (devices_arg : option string) : M unit :=
  reset_stats ;;;
  devices <- sweep_devices devices_arg ;;
  log Info (LogStartingSweep devices) ;;;
  start <- now ;;
  for_each audit_device devices ;;;
  finish <- now ;;
  st <- attr (fun a => stats (counters a)) ;;
  log Info (LogFinishedSweep devices (fsub finish start) st).

(** One turn of the [while True] loop of [run_forever]. *)
Definition run_forever_iteration (devices_arg : option string) : M unit :=
  begin <- now ;;
  log Info LogBeginSweep ;;;
  run_once devices_arg ;;;
  finish <- now ;;
  let elapsed := fsub finish begin in
  log Info (LogSweepCompleted elapsed) ;;;
  dump_recon_cache "object_audit_sweep" elapsed ;;;
  interval <- attr interval ;;
  (if flt elapsed (float_of_int interval)
   then sleep (fsub (float_of_int interval) elapsed)
   else ret tt) ;;;
  reset_stats.

Fixpoint iterations (n : nat) (devices_arg : option string) : M unit :=
  match n with
  | O => ret tt
  | S n' => run_forever_iteration devices_arg ;;; iterations n' devices_arg
  end.

(** [run_forever] up to its first [n] sweeps. *)
Definition run_forever (n : nat) (devices_arg : option string) : M unit :=
  x <- random ;;
  interval <- attr interval ;;
  sleep (fmul x (float_of_int interval)) ;;;
  iterations n devices_arg.

(** ** Vocabulary for the statements *)

(** What a trace says about each kind of call. *)
Definition quarantined (tr : list Event) : list (string * string) :=
  omap (fun e => match e with EvQuarantine d k => Some (d, k) | _ => None end) tr.

Definition content_reads (tr : list Event) : list (string * string * Z) :=
  omap (fun e => match e with EvRead d k n => Some (d, k, n) | _ => None end) tr.

Definition ratelimit_calls (tr : list Event) : list (float * float * Z) :=
  omap (fun e => match e with EvRatelimit t r n => Some (t, r, n) | _ => None end) tr.

Definition warnings (tr : list Event) : list LogMsg :=
  omap (fun e => match e with EvLog Warning m => Some m | _ => None end) tr.

Definition connects (tr : list Event) : list HostPort :=
  omap (fun e => match e with EvConnect hp => Some hp | _ => None end) tr.

(** Calls of the scheduler: [time.sleep] and [dump_recon_cache]. *)
Definition is_pacing (e : Event) : bool :=
  match e with EvSleep _ | EvRecon _ _ => true | _ => false end.

(** Size and digest of a streamed body. *)
Definition streamed_size (chunks : list (list Byte.byte)) : Z :=
  fold_right (fun chunk n => Z.of_nat (length chunk) + n) 0 chunks.

Definition streamed_etag (chunks : list (list Byte.byte)) : string :=
  md5_hexdigest (fold_left md5_update chunks md5_new).

(** The object at [(device, head_key)] can be opened, and yields metadata
    [md] and the body [chunks] without an error. *)
Definition streams (st : Store) (device head_key : string) (df : DiskFile)
    (md : gmap string string) (chunks : list (list Byte.byte)) : Prop :=
  get_diskfile_from_audit_location st device head_key = Ok df /\
  df_open st df = Ok tt /\
  df_get_metadata st df = Ok md /\
  df_iter st df = (chunks, None).

(** The object is gone when the auditor opens it. *)
Definition vanished (st : Store) (device head_key : string) : Prop :=
  exists df, get_diskfile_from_audit_location st device head_key = Ok df /\
             df_open st df = Raise DiskFileNotExist.

(** Size and digest of the body agree with the stored metadata. *)
Definition intact (st : Store) (device head_key : string) : Prop :=
  exists df md chunks,
    streams st device head_key df md chunks /\
    int_of_header (md !! "Content-Length"%string) = Ok (streamed_size chunks) /\
    md !! "ETag"%string = Some (streamed_etag chunks).

(** The keys a device lists; none when it cannot be reached. *)
Definition listed_keys (st : Store) (device : string) : list string :=
  match get_device_host_and_port device with
  | Ok hp => match get_connection st hp with
             | Ok conn => fst (iterKeyRange st conn "objects" "objects/")
             | Raise _ => []
             end
  | Raise _ => []
  end.

Definition uncorrupted (st : Store) (devices : list string) : Prop :=
  forall device head_key,
    device ∈ devices -> head_key ∈ listed_keys st device ->
    intact st device head_key \/ vanished st device head_key.

(** The order on counters: every entry of [stats] and every byte and file
    counter. [bytes_running_time] is the rate limiter's clock, not a count. *)
Definition counters_le (c1 c2 : Counters) : Prop :=
  (forall k, stats_get k c1 <= stats_get k c2) /\
  bytes_processed c1 <= bytes_processed c2 /\
  total_bytes_processed c1 <= total_bytes_processed c2 /\
  total_files_processed c1 <= total_files_processed c2 /\
  passes c1 <= passes c2 /\
  quarantines c1 <= quarantines c2 /\
  errors c1 <= errors c2.

(** Consecutive elements of [l], starting from [c], never decrease. *)
Fixpoint ascending (c : Counters) (l : list Counters) : Prop :=
  match l with
  | [] => True
  | c' :: l' => counters_le c c' /\ ascending c' l'
  end.

Definition all_zero (c : Counters) : Prop :=
  (forall k, stats_get k c = 0) /\
  bytes_processed c = 0 /\ total_bytes_processed c = 0 /\
  total_files_processed c = 0.

(** The configuration with the files-per-second budget replaced. *)
Definition with_files_per_second (v : float) (s : State) : State :=
  {| self := {| swift_dir := swift_dir (self s);
                max_files_per_second := v;
                max_bytes_per_second := max_bytes_per_second (self s);
                interval := interval (self s);
                counters := counters (self s) |};
     store := store s; env := env s; trace := trace s; history := history s |}.

(** A freshly constructed auditor in a given world. *)
Definition boot (a : Auditor) (st : Store) (e : Env) : State :=
  {| self := a; store := st; env := e; trace := []; history := [] |}.

(** ** Vocabulary for the proofs *)

(** [stable R m]: whatever the outcome, running [m] takes a state to an
    [R]-related one. *)
Definition stable {A} (R : relation State) (m : M A) : Prop :=
  forall s, R s (m s).2.

(** [total m]: [m] returns; no exception leaves it. *)
Definition total {A} (m : M A) : Prop :=
  forall s, exists a, (m s).1 = Ok a.

(** The part [f] of the state is the same before and after. *)
Definition same_on {X} (f : State -> X) : relation State :=
  fun s s' => f s' = f s.

(** The attributes [__init__] sets from the configuration. *)
Definition configuration (s : State) : string * float * float * Z :=
  (swift_dir (self s), max_files_per_second (self s),
   max_bytes_per_second (self s), interval (self s)).

(** The state in which [_audit_object] compares size and digest: the object
    has been opened and its body streamed. *)
Definition streamed (device head_key : string)
    (chunks : list (list Byte.byte)) (s : State) : State :=
  (audit_chunks device head_key (md5_new, 0) chunks
     (emit (EvOpen device head_key) s).2).2.

(** The two mismatch branches of [_audit_object]: warn, quarantine, answer
    [False]. *)
Definition reject (device head_key : string) (df : DiskFile) (msg : LogMsg) : M bool :=
  log Warning msg ;;; quarantine device head_key df ;;; ret false.

(** The entries of [stats] that the loop of [_audit_device] updates. *)
Definition object_keys : list string :=
  ["found_objects"; "success"; "failures"]%string.

(** What [audit_device] does with the outcome of [_audit_device]. *)
Definition device_verdict (device : string) (r : res unit) : M unit :=
  match r with
  | Ok _ => assign (stats_incr "device.success")
  | Raise DiskFileDeviceUnavailable =>
    log Warning (LogUnableToConnect device) ;;; assign (stats_incr "device.failures")
  | Raise _ =>
    log Error (LogDeviceException device) ;;; assign (stats_incr "device.failures")
  end.

(** Calls are only ever added to the trace. *)
Definition extends : relation State :=
  fun s s' => trace s `prefix_of` trace s'.

(** [run_once] is [reset_stats] followed by the sweep proper. *)
Definition after_reset (devices_arg : option string) : M unit :=
  devices <- sweep_devices devices_arg ;;
  log Info (LogStartingSweep devices) ;;;
  start <- now ;;
  for_each audit_device devices ;;;
  finish <- now ;;
  st <- attr (fun a => stats (counters a)) ;;
  log Info (LogFinishedSweep devices (fsub finish start) st).

(** Every object found has been counted as a success or as a failure. *)
Definition consistent (s : State) : Prop :=
  stats_get "found_objects" (counters (self s))
  = stats_get "success" (counters (self s))
    + stats_get "failures" (counters (self s)).

(** [consistent] survives the computation. *)
Definition keeps_consistent : relation State :=
  fun s s' => consistent s -> consistent s'.

(** The last of the snapshots [h], or [c] when there is none. *)
Definition final (c : Counters) (h : list Counters) : Counters :=
  fold_left (fun _ c' => c') h c.

(** The snapshots taken by a computation continue the current counters
    without ever decreasing, and end at the counters it leaves. *)
Definition grows : relation State :=
  fun s s' =>
    exists h, history s' = history s ++ h /\
              ascending (counters (self s)) h /\
              counters (self s') = final (counters (self s)) h.

(** [respects E m]: from [E]-related states, [m] gives the same outcome and
    [E]-related states. *)
Definition respects {A} (E : relation State) (m : M A) : Prop :=
  forall s1 s2, E s1 s2 -> (m s1).1 = (m s2).1 /\ E (m s1).2 (m s2).2.

(** Two states with the same part [p]. *)
Definition agree {X} (p : State -> X) : relation State :=
  fun s1 s2 => p s1 = p s2.

(** Everything but the files-per-second budget. *)
Definition but_files_per_second (s : State) :=
  (swift_dir (self s), max_bytes_per_second (self s), interval (self s),
   counters (self s), store s, env s, trace s, history s).

(** Everything but the ghost history. *)
Definition but_history (s : State) := (self s, store s, env s, trace s).

(** A state with another past: other counters, another history. *)
Definition with_past (c : Counters) (h : list Counters) (s : State) : State :=
  {| self := with_counters c (self s); store := store s; env := env s;
     trace := trace s; history := h |}.

(** A rate-limiter call, if [e] is one, passes [rate] as its ceiling. *)
Definition within_budget (rate : float) (e : Event) : Prop :=
  match e with
  | EvRatelimit _ max_rate _ => max_rate = rate
  | _ => True
  end.

(** Every rate-limiter call made by a computation passes the byte budget. *)
Definition budgeted : relation State :=
  fun s s' =>
    max_bytes_per_second (self s') = max_bytes_per_second (self s) /\
    exists tr, trace s' = trace s ++ tr /\
               Forall (within_budget (max_bytes_per_second (self s))) tr.

(** A computation that neither sleeps nor publishes. *)
Definition quiet : relation State :=
  fun s s' => exists tr, trace s' = trace s ++ tr /\ List.filter is_pacing tr = [].

(** The value of [devices] in [run_once], given the [devices] argument and
    [swift_dir]. *)
Definition devices_for (devices_arg : option string) (dir : string) : res (list string) :=
  match list_from_csv devices_arg with
  | [] =>
    match device_names (all_ring_devs dir) with
    | Ok names => Ok (elements (list_to_set names : gset string))
    | Raise e => Raise e
    end
  | override_devices => Ok override_devices
  end.

(** A ring entry that the comprehension of [_get_devices] keeps. *)
Definition names_device (d : option (gmap string string)) (name : string) : Prop :=
  exists dict, d = Some dict /\ dict <> ∅ /\ dict !! "device"%string = Some name.

(** The objects a healthy sweep of [devices] counts as successes. *)
Definition expected_success (st : Store) (devices : list string) : Z :=
  foldr (fun device n => Z.of_nat (length (listed_keys st device)) + n) 0 devices.

(** ** Vocabulary for further properties *)

(** The objects the auditor tried to open. *)
Definition opened (tr : list Event) : list (string * string) :=
  omap (fun e => match e with EvOpen d k => Some (d, k) | _ => None end) tr.

(** The values published through [dump_recon_cache]. *)
Definition recons (tr : list Event) : list (string * float) :=
  omap (fun e => match e with EvRecon k v => Some (k, v) | _ => None end) tr.

(** The durations passed to [time.sleep]. *)
Definition sleeps (tr : list Event) : list float :=
  omap (fun e => match e with EvSleep d => Some d | _ => None end) tr.

(** Ceiling and increment of each rate-limiter call. *)
Definition ratelimit_budgets (tr : list Event) : list (float * Z) :=
  omap (fun e => match e with EvRatelimit _ r n => Some (r, n) | _ => None end) tr.

(** The reads and rate-limiter calls that streaming [chunks] makes. *)
Definition chunk_reads (device head_key : string)
    (chunks : list (list Byte.byte)) : list (string * string * Z) :=
  map (fun chunk => (device, head_key, Z.of_nat (length chunk))) chunks.

Definition chunk_budgets (max_rate : float)
    (chunks : list (list Byte.byte)) : list (float * Z) :=
  map (fun chunk => (max_rate, Z.of_nat (length chunk))) chunks.

(** The counters that no method but [reset_stats] assigns. *)
Definition idle_counters (c : Counters) : Z * Z * Z * Z :=
  (total_files_processed c, passes c, quarantines c, errors c).

(** Quarantine calls not yet matched by a counted failure. *)
Definition unaccounted (s : State) : Z :=
  Z.of_nat (length (quarantined (trace s)))
  - stats_get "failures" (counters (self s)).

Definition accounts : relation State :=
  fun s s' => unaccounted s' <= unaccounted s.

(** The two byte counters move together. *)
Definition bytes_in_step : relation State :=
  fun s s' =>
    bytes_processed (counters (self s')) - bytes_processed (counters (self s))
    = total_bytes_processed (counters (self s'))
      - total_bytes_processed (counters (self s)).

(** Auditing the object fails with [e] before any of its content is read:
    it cannot be located, opening it raises something other than
    [DiskFileNotExist], or its metadata cannot be read. *)
Definition fails_early (st : Store) (device head_key : string) (e : exn) : Prop :=
  get_diskfile_from_audit_location st device head_key = Raise e \/
  exists df,
    get_diskfile_from_audit_location st device head_key = Ok df /\
    (df_open st df = Raise e /\ e <> DiskFileNotExist \/
     df_open st df = Ok tt /\ df_get_metadata st df = Raise e).

(** One of the two warnings that precede a quarantine. *)
Definition mismatch_warning (head_key : string) (msg : LogMsg) : Prop :=
  match msg with
  | LogSizeMismatch k _ _ | LogEtagMismatch k _ _ => k = head_key
  | _ => False
  end.

(** Enumerating the keys of the device fails with [e] before the first
    key: its name cannot be resolved, or the connection cannot be made. *)
Definition unreachable (st : Store) (device : string) (e : exn) : Prop :=
  get_device_host_and_port device = Raise e \/
  exists hp, get_device_host_and_port device = Ok hp /\
             get_connection st hp = Raise e.

(** The warning [audit_device] logs for a failure [e], if any. *)
Definition device_warning (device : string) (e : exn) : list LogMsg :=
  match e with
  | DiskFileDeviceUnavailable => [LogUnableToConnect device]
  | _ => []
  end.

(** ** The command line *)

(** The first statement of [main]: when [sys.argv[1]] is not an existing
    path, the default configuration path is inserted before it; with no
    argument at all, [sys.argv[1]] raises [IndexError], which is passed
    over.  [path_exists] is [os.path.exists]; the result is the [sys.argv]
    that [parse_options] then reads. *)
Definition main_argv (path_exists : string -> bool) (argv : list string) : list string :=
  match argv !! 1%nat with
  | None => argv
  | Some arg =>
    if negb (path_exists arg)
    then take 1 argv ++ "/etc/swift/kinetic.conf"%string :: drop 1 argv
    else argv
  end.

(** The state in which [run_forever] enters its loop. *)
Definition after_jitter (s : State) : State :=
  ((x <- random ;;
    interval <- attr interval ;;
    sleep (fmul x (float_of_int interval))) s).2.

(** The store changes only together with a quarantine call. *)
Definition writes_by_quarantine : relation State :=
  fun s s' =>
    quarantined (trace s) `prefix_of` quarantined (trace s') /\
    (quarantined (trace s') = quarantined (trace s) -> store s' = store s).

(** The running time passed by the first rate-limiter call of [tr], if
    there is one, is [t]. *)
Definition first_running_time (t : float) (tr : list Event) : Prop :=
  match ratelimit_calls tr with
  | [] => True
  | (t', _, _) :: _ => t' = t
  end.

(** The first rate-limiter call made by a computation is given the running
    time the computation started with; without any call the running time
    is unchanged. *)
Definition starts_rate_limit : relation State :=
  fun s s' =>
    exists tr,
      trace s' = trace s ++ tr /\
      first_running_time (bytes_running_time (counters (self s))) tr /\
      (ratelimit_calls tr = [] ->
       bytes_running_time (counters (self s'))
       = bytes_running_time (counters (self s))).

End Auditor.

(** ** A small concrete world

    An instance of the two interfaces, used to run the auditor on explicit
    inputs: time is counted in whole ticks, the digest of a body is the body
    itself, and a store maps each reachable device to its objects. *)
Module Toy.

Fixpoint digits_value (s : string) (acc : Z) : option Z :=
  match s with
  | EmptyString => Some acc
  | String c s' =>
    let n := Z.of_nat (Ascii.nat_of_ascii c) in
    if (48 <=? n) && (n <=? 57) then digits_value s' (10 * acc + (n - 48))
    else None
  end.

Definition parse_decimal (s : string) : option Z :=
  match s with
  | EmptyString => None
  | _ => digits_value s 0
  end.

Definition is_space (c : Ascii.ascii) : bool :=
  let n := Ascii.nat_of_ascii c in
  ((9 <=? n)%nat && (n <=? 13)%nat) || (n =? 32)%nat.

Fixpoint lstrip (s : string) : string :=
  match s with
  | String c s' => if is_space c then lstrip s' else s
  | EmptyString => EmptyString
  end.

Fixpoint rstrip (s : string) : string :=
  match s with
  | String c s' =>
    match rstrip s' with
    | EmptyString => if is_space c then EmptyString else String c EmptyString
    | r => String c r
    end
  | EmptyString => EmptyString
  end.

Definition strip (s : string) : string := rstrip (lstrip s).

Fixpoint split_commas (s : string) (cur : string) : list string :=
  match s with
  | EmptyString => [cur]
  | String c s' =>
    if Ascii.eqb c (Ascii.ascii_of_nat 44) then cur :: split_commas s' EmptyString
    else split_commas s' (cur +:+ String c EmptyString)
  end.

(** [[v.strip() for v in s.split(',') if v.strip()]], and [[]] for [None]
    or the empty string. *)
Definition csv (arg : option string) : list string :=
  match arg with
  | None | Some EmptyString => []
  | Some s =>
    List.filter (fun v => negb (String.eqb v EmptyString))
                (map strip (split_commas s EmptyString))
  end.

#[local] Instance platform : Platform := {|
  float := Z;
  float_of_int := fun n => n;
  py_float := parse_decimal;
  py_int := parse_decimal;
  fsub := Z.sub;
  fmul := Z.mul;
  flt := Z.ltb;
  md5 := list Byte.byte;
  md5_new := [];
  md5_update := fun h chunk => h ++ chunk;
  md5_hexdigest := String.string_of_list_byte;
  Env := Z;
  time_time := fun clock => (clock, clock + 1);
  time_sleep := fun d clock => clock + d;
  random_random := fun clock => (0, clock);
  ratelimit_sleep := fun running_time max_rate incr_by clock =>
                       (running_time + incr_by, clock);
  list_from_csv := csv;
|}.

Record ToyObject : Type := {
  body : list (list Byte.byte);
  headers : gmap string string;
}.

Definition find_object (st : gmap string (list (string * ToyObject)))
    (df : string * string) : option ToyObject :=
  objs ← st !! df.1;
  snd <$> List.find (fun p => String.eqb p.1 df.2) objs.

#[local] Instance backend : Backend := {|
  Store := gmap string (list (string * ToyObject));
  HostPort := string;
  Conn := string;
  DiskFile := string * string;
  get_device_host_and_port := fun device => Ok device;
  get_connection := fun st hp =>
    match st !! hp with
    | Some _ => Ok hp
    | None => Raise DiskFileDeviceUnavailable
    end;
  iterKeyRange := fun st conn _ _ => (map fst (default [] (st !! conn)), None);
  get_diskfile_from_audit_location := fun _ device head_key => Ok (device, head_key);
  df_open := fun st df =>
    match find_object st df with
    | Some _ => Ok tt
    | None => Raise DiskFileNotExist
    end;
  df_get_metadata := fun st df =>
    match find_object st df with
    | Some o => Ok (headers o)
    | None => Raise DiskFileNotExist
    end;
  df_iter := fun st df =>
    match find_object st df with
    | Some o => (body o, None)
    | None => ([], Some DiskFileNotExist)
    end;
  df_quarantine := fun st df =>
    (Ok tt, alter (List.filter (fun p => negb (String.eqb p.1 df.2))) df.1 st);
  POLICIES := [0; 1];
  get_object_ring_devs := fun policy _ =>
    if Z.eqb policy 0
    then [Some {[ "device" := "sda" ]}; None; Some {[ "device" := "sdb" ]}]
    else [Some {[ "device" := "sdb" ]}; Some ∅];
|}%string.

Definition object (content : list string) (len etag : string) : ToyObject :=
  {| body := map String.list_byte_of_string content;
     headers := {[ "Content-Length" := len; "ETag" := etag ]}%string |}.

(** [sda] holds a sound object and a truncated one, [sdb] one whose digest
    is wrong; no other device answers. *)
Definition damaged_store : gmap string (list (string * ToyObject)) :=
  {[ "sda" := [("objects/a", object ["hel"; "lo"] "5" "hello");
               ("objects/b", object ["wor"] "5" "world")];
     "sdb" := [("objects/c", object ["data"] "4" "DATA")] ]}%string.

Definition sound_store : gmap string (list (string * ToyObject)) :=
  {[ "sda" := [("objects/a", object ["hel"; "lo"] "5" "hello")];
     "sdb" := [("objects/c", object ["data"] "4" "data")] ]}%string.

Definition auditor : Auditor :=
  {| swift_dir := "/etc/swift"; max_files_per_second := 20;
     max_bytes_per_second := 10000000; interval := 30;
     counters := zero_counters |}.

Definition start (st : gmap string (list (string * ToyObject))) : State :=
  boot auditor st 0.

End Toy.

(** ** A concrete world with faults

    A second back end in which every call the auditor makes can be told to
    raise: per object when it is located, opened, asked for its metadata or
    read, and per device when it is connected to or its keys are listed.
    Its ring has an entry without a device name. *)
Module Faulty.

Record FaultyObject : Type := {
  body : list (list Byte.byte);
  headers : gmap string string;
  locate_error : option exn;
  open_error : option exn;
  metadata_error : option exn;
  read_error : option exn;
}.

Record FaultyDevice : Type := {
  objects : list (string * FaultyObject);
  connect_error : option exn;
  iter_error : option exn;
}.

Definition find_object (st : gmap string FaultyDevice)
    (df : string * string) : option FaultyObject :=
  dev ← st !! df.1;
  snd <$> List.find (fun p => String.eqb p.1 df.2) (objects dev).

Definition without (head_key : string) (dev : FaultyDevice) : FaultyDevice :=
  {| objects := List.filter (fun p => negb (String.eqb p.1 head_key)) (objects dev);
     connect_error := connect_error dev;
     iter_error := iter_error dev |}.

#[local] Instance backend : Backend := {|
  Store := gmap string FaultyDevice;
  HostPort := string;
  Conn := string;
  DiskFile := string * string;
  get_device_host_and_port := fun device =>
    if String.eqb device EmptyString then Raise ValueError else Ok device;
  get_connection := fun st hp =>
    match st !! hp with
    | Some dev => match connect_error dev with
                  | Some e => Raise e
                  | None => Ok hp
                  end
    | None => Raise DiskFileDeviceUnavailable
    end;
  iterKeyRange := fun st conn _ _ =>
    match st !! conn with
    | Some dev => (map fst (objects dev), iter_error dev)
    | None => ([], None)
    end;
  get_diskfile_from_audit_location := fun st device head_key =>
    match find_object st (device, head_key) ≫= locate_error with
    | Some e => Raise e
    | None => Ok (device, head_key)
    end;
  df_open := fun st df =>
    match find_object st df with
    | Some o => match open_error o with Some e => Raise e | None => Ok tt end
    | None => Raise DiskFileNotExist
    end;
  df_get_metadata := fun st df =>
    match find_object st df with
    | Some o => match metadata_error o with
                | Some e => Raise e
                | None => Ok (headers o)
                end
    | None => Raise DiskFileNotExist
    end;
  df_iter := fun st df =>
    match find_object st df with
    | Some o => (body o, read_error o)
    | None => ([], Some DiskFileNotExist)
    end;
  df_quarantine := fun st df => (Ok tt, alter (without df.2) df.1 st);
  POLICIES := [0];
  get_object_ring_devs := fun _ _ =>
    [Some {[ "device" := "sda" ]}; Some {[ "id" := "7" ]}]%string;
|}.

Definition sound : FaultyObject :=
  {| body := map String.list_byte_of_string ["da"; "ta"]%string;
     headers := {[ "Content-Length" := "4"; "ETag" := "data" ]}%string;
     locate_error := None; open_error := None;
     metadata_error := None; read_error := None |}.

Definition lost : FaultyObject :=
  {| body := body sound; headers := headers sound;
     locate_error := Some DiskFileDeviceUnavailable; open_error := None;
     metadata_error := None; read_error := None |}.

Definition cut : FaultyObject :=
  {| body := map String.list_byte_of_string ["da"]%string;
     headers := headers sound;
     locate_error := None; open_error := None; metadata_error := None;
     read_error := Some (OtherException "ChunkReadTimeout") |}.

Definition no_length : FaultyObject :=
  {| body := body sound; headers := {[ "ETag" := "data" ]}%string;
     locate_error := None; open_error := None;
     metadata_error := None; read_error := None |}.

(** [sda] lists four objects and then loses its connection. *)
Definition faulty_store : gmap string FaultyDevice :=
  {[ "sda" := {| objects := [("objects/ok", sound); ("objects/lost", lost);
                             ("objects/cut", cut); ("objects/nolen", no_length)];
                 connect_error := None;
                 iter_error := Some (OtherException "ConnectionLost") |} ]}%string.

Definition start : State := boot Toy.auditor faulty_store 0.

End Faulty.

(** * Properties *)

Section Properties.
Context `{PF : Platform} `{BE : Backend}.

Notation "x <- m ;; k" := (bind m (fun x => k))
  (at level 100, m at next level, right associativity).
Notation "m ;;; k" := (bind m (fun _ => k))
  (at level 100, right associativity).

(** ** Reasoning about computations *)

Section Stable.
Context (R : relation State) `{!PreOrder R}.

Lemma stable_ret {A} (a : A) : stable R (ret a).
Proof. intros s. reflexivity. Qed.

Lemma stable_raise {A} e : stable R (@raise _ _ A e).
Proof. intros s. reflexivity. Qed.

Lemma stable_lift {A} (r : res A) : stable R (lift r).
Proof. intros s. reflexivity. Qed.

Lemma stable_attr {A} (f : Auditor -> A) : stable R (attr f).
Proof. intros s. reflexivity. Qed.

Lemma stable_get_store : stable R get_store.
Proof. intros s. reflexivity. Qed.

Lemma stable_bind {A B} (m : M A) (k : A -> M B) :
  stable R m -> (forall a, stable R (k a)) -> stable R (bind m k).
Proof.
  intros Hm Hk s. unfold bind. specialize (Hm s).
  destruct (m s) as [[a|e] s1]; cbn in *; [|done].
  etrans; [exact Hm | apply Hk].
Qed.

Lemma stable_try {A} (m : M A) : stable R m -> stable R (try m).
Proof. intros Hm s. apply Hm. Qed.

Lemma stable_for_each {A} (body : A -> M unit) l :
  (forall x, stable R (body x)) -> stable R (for_each body l).
Proof.
  intros Hb. induction l as [|x l IH]; cbn.
  - apply stable_ret.
  - apply stable_bind; auto.
Qed.

Lemma stable_audit_chunks device head_key chunks :
  (forall acc chunk, stable R (audit_chunk device head_key acc chunk)) ->
  forall acc, stable R (audit_chunks device head_key acc chunks).
Proof.
  intros Hc. induction chunks as [|c chunks IH]; intros acc; cbn.
  - apply stable_ret.
  - apply stable_bind; auto.
Qed.

Lemma stable_iterations n devices_arg :
  stable R (run_forever_iteration devices_arg) ->
  stable R (iterations n devices_arg).
Proof.
  intros Hi. induction n as [|n IH]; cbn.
  - apply stable_ret.
  - apply stable_bind; auto.
Qed.

End Stable.

Create HintDb stable.

(** [stable_walk] takes a goal [stable R m] down the structure of [m] to
    the primitive actions that change the state, using the lemmas of the
    [stable] database where it meets a method they cover. *)
Ltac head_of t :=
  lazymatch t with
  | ?f _ => head_of f
  | _ => t
  end.

Ltac stable_step :=
  lazymatch goal with
  | |- stable _ (ret _) => apply stable_ret; typeclasses eauto
  | |- stable _ (raise _) => apply stable_raise; typeclasses eauto
  | |- stable _ (lift _) => apply stable_lift; typeclasses eauto
  | |- stable _ (attr _) => apply stable_attr; typeclasses eauto
  | |- stable _ get_store => apply stable_get_store; typeclasses eauto
  | |- stable _ (bind _ _) => apply stable_bind; [ typeclasses eauto | | intros ? ]
  | |- stable _ (try _) => apply stable_try
  | |- stable _ (for_each _ _) =>
    apply stable_for_each; [ typeclasses eauto | intros ? ]
  | |- stable _ (audit_chunks _ _ _ _) =>
    apply stable_audit_chunks; [ typeclasses eauto | intros ? ? ]
  | |- stable _ (iterations _ _) => apply stable_iterations; [ typeclasses eauto | ]
  | |- stable _ (match ?x with _ => _ end) => destruct x
  | |- stable _ (emit _) => fail
  | |- stable _ (assign _) => fail
  | |- stable _ (with_env _) => fail
  | |- stable _ (set_store _) => fail
  | |- stable _ ?m =>
    first [ solve [auto with stable] | let h := head_of m in progress unfold h ]
  end.

Ltac stable_walk := repeat stable_step.

(** *** Parts of the state a computation leaves alone *)

#[local] Instance same_on_preorder {X} (f : State -> X) : PreOrder (same_on f).
Proof. split; unfold same_on; [intros s | intros s1 s2 s3 H1 H2]; congruence. Qed.

Ltac leaf :=
  intro; unfold same_on, quarantined, content_reads, warnings, connects,
           ratelimit_calls; cbn;
  rewrite ?omap_app; cbn; rewrite ?app_nil_r; reflexivity.

Lemma run_once_configuration arg : stable (same_on configuration) (run_once arg).
Proof. stable_walk; leaf. Qed.

(** Only [quarantine] writes to the store, and only [quarantine] and the
    two mismatch branches add to the quarantine calls and the warnings. *)
Section ChunkLoop.
Variables device head_key : string.

Lemma audit_chunks_value chunks : forall acc s,
  (audit_chunks device head_key acc chunks s).1
  = Ok (fold_left md5_update chunks acc.1, acc.2 + streamed_size chunks).
Proof.
  induction chunks as [|c chunks IH]; intros [etag size] s; cbn.
  - f_equal. f_equal. lia.
  - rewrite IH. cbn. f_equal. f_equal. unfold streamed_size. lia.
Qed.

Lemma audit_chunks_store chunks acc :
  stable (same_on store) (audit_chunks device head_key acc chunks).
Proof. stable_walk; leaf. Qed.

Lemma audit_chunks_stats chunks acc :
  stable (same_on (fun s => stats (counters (self s))))
         (audit_chunks device head_key acc chunks).
Proof. stable_walk; leaf. Qed.

Lemma audit_chunks_quarantined chunks acc :
  stable (same_on (fun s => quarantined (trace s)))
         (audit_chunks device head_key acc chunks).
Proof. stable_walk; leaf. Qed.

Lemma audit_chunks_warnings chunks acc :
  stable (same_on (fun s => warnings (trace s)))
         (audit_chunks device head_key acc chunks).
Proof. stable_walk; leaf. Qed.

End ChunkLoop.

(** [_audit_object] on an object that opens and streams. *)
Lemma _audit_object_streams device head_key df md chunks s :
  streams (store s) device head_key df md chunks ->
  _audit_object device head_key s =
    let s1 := streamed device head_key chunks s in
    let size := streamed_size chunks in
    match int_of_header (md !! "Content-Length"%string) with
    | Raise e => (Raise e, s1)
    | Ok expected =>
      if negb (size =? expected) then
        reject device head_key df
          (LogSizeMismatch head_key size (md !! "Content-Length"%string)) s1
      else if negb (bool_decide (Some (streamed_etag chunks) = md !! "ETag"%string)) then
        reject device head_key df
          (LogEtagMismatch head_key (streamed_etag chunks) (md !! "ETag"%string)) s1
      else (Ok true, s1)
    end.
Proof.
  intros (Hdf & Hopen & Hmd & Hiter).
  unfold _audit_object, streamed, reject, bind; cbn.
  rewrite Hdf; cbn. rewrite Hopen; cbn. rewrite Hmd; cbn. rewrite Hiter.
  pose proof (audit_chunks_value device head_key chunks (md5_new, 0)
                (emit (EvOpen device head_key) s).2) as Hv.
  cbn in Hv.
  destruct (audit_chunks _ _ _ _ _) as [r s1] eqn:Hrun. cbn in Hv. subst r. cbn.
  rewrite !Z.add_0_l.
  destruct (int_of_header _) as [expected|e]; [|done].
  unfold streamed_etag.
  destruct (negb (streamed_size chunks =? expected)); [done|].
  destruct (negb (bool_decide _)); done.
Qed.

(** Rejecting an object: one warning, one quarantine call, and never the
    answer [True]. *)
Lemma reject_run device head_key df msg s :
  exists r s',
    reject device head_key df msg s = (r, s') /\
    (r = Ok false \/ exists e, r = Raise e) /\
    quarantined (trace s') = quarantined (trace s) ++ [(device, head_key)] /\
    warnings (trace s') = warnings (trace s) ++ [msg] /\
    content_reads (trace s') = content_reads (trace s) /\
    stats (counters (self s')) = stats (counters (self s)).
Proof.
  unfold reject, quarantine, log, bind; cbn.
  destruct (df_quarantine (store s) df) as [[[]|e] st'] eqn:Hq; cbn;
    eexists _, _; (split; [reflexivity|]); cbn;
    unfold quarantined, warnings, content_reads; rewrite !omap_app; cbn;
    rewrite ?app_nil_r, <- ?app_assoc; eauto 10.
Qed.

Lemma streamed_frame device head_key chunks s :
  let s1 := streamed device head_key chunks s in
  store s1 = store s /\
  quarantined (trace s1) = quarantined (trace s) /\
  warnings (trace s1) = warnings (trace s) /\
  stats (counters (self s1)) = stats (counters (self s)).
Proof.
  intros s1. subst s1. unfold streamed.
  set (s0 := (emit (EvOpen device head_key) s).2).
  pose proof (audit_chunks_store device head_key chunks (md5_new, 0) s0) as H1.
  pose proof (audit_chunks_quarantined device head_key chunks (md5_new, 0) s0) as H2.
  pose proof (audit_chunks_warnings device head_key chunks (md5_new, 0) s0) as H3.
  pose proof (audit_chunks_stats device head_key chunks (md5_new, 0) s0) as H4.
  unfold same_on in *. rewrite H1, H2, H3, H4. subst s0. cbn.
  unfold quarantined, warnings. rewrite !omap_app. cbn. by rewrite !app_nil_r.
Qed.

(** *** The call boundary: [audit_object] and the loop body *)

#[local] Arguments _audit_object : simpl never.
#[local] Arguments audit_object : simpl never.
#[local] Arguments audit_location : simpl never.
#[local] Arguments _audit_device : simpl never.
#[local] Arguments audit_device : simpl never.
#[local] Arguments run_once : simpl never.

Lemma audit_object_run device location s :
  audit_object device location s =
    match _audit_object device location s with
    | (Ok success, s') => (Ok success, s')
    | (Raise _, s') =>
      (Ok false, (log Error (LogObjectException device location) s').2)
    end.
Proof.
  unfold audit_object, bind, try.
  by destruct (_audit_object device location s) as [[b|e] s'].
Qed.

Lemma audit_object_total device location : total (audit_object device location).
Proof.
  intros s. rewrite audit_object_run.
  destruct (_audit_object device location s) as [[b|e] s']; eauto.
Qed.

Lemma audit_object_stats device location :
  stable (same_on (fun s => stats (counters (self s))))
         (audit_object device location).
Proof. stable_walk; leaf. Qed.

Lemma stats_get_incr k k' c :
  stats_get k' (stats_incr k c)
  = if decide (k = k') then stats_get k c + 1 else stats_get k' c.
Proof.
  unfold stats_get, stats_incr; cbn. rewrite lookup_insert.
  by destruct (decide (k = k')) as [->|].
Qed.

(** The loop body of [_audit_device] in terms of the verdict on the object. *)
Lemma audit_location_run device location s :
  exists success s1,
    audit_object device location (assign (stats_incr "found_objects") s).2
      = (Ok success, s1) /\
    audit_location device location s
      = (Ok tt, (assign (stats_incr (if success then "success" else "failures")) s1).2) /\
    stats (counters (self s1))
      = stats (stats_incr "found_objects" (counters (self s))).
Proof.
  set (s0 := (assign (stats_incr "found_objects") s).2).
  destruct (audit_object_total device location s0) as [b Hb].
  pose proof (audit_object_stats device location s0) as Hs. unfold same_on in Hs.
  destruct (audit_object device location s0) as [r s1] eqn:Hrun.
  cbn in Hb, Hs. subst r.
  exists b, s1. split; [done|]. split; [|by rewrite Hs].
  unfold audit_location, bind. subst s0. cbn in *. rewrite Hrun. by destruct b.
Qed.

(** *** Verdicts *)

Lemma _audit_object_intact device head_key s :
  intact (store s) device head_key ->
  exists s',
    _audit_object device head_key s = (Ok true, s') /\
    store s' = store s /\
    quarantined (trace s') = quarantined (trace s) /\
    warnings (trace s') = warnings (trace s).
Proof.
  intros (df & md & chunks & Hstr & Hsize & Hetag).
  rewrite (_audit_object_streams _ _ _ _ _ _ Hstr). cbn. rewrite Hsize, Hetag.
  rewrite Z.eqb_refl. cbn. rewrite bool_decide_eq_true_2 by done. cbn.
  eexists; split; [done|].
  destruct (streamed_frame device head_key chunks s) as (? & ? & ? & ?). done.
Qed.

Lemma _audit_object_vanished device head_key s :
  vanished (store s) device head_key ->
  _audit_object device head_key s
    = (Ok true, ((emit (EvOpen device head_key) ;;;
                  log Debug (LogNotExist head_key)) s).2).
Proof.
  intros (df & Hdf & Hopen).
  unfold _audit_object, log, bind, try; cbn. rewrite Hdf; cbn. by rewrite Hopen.
Qed.

Lemma _audit_object_mismatch device head_key df md chunks expected s :
  streams (store s) device head_key df md chunks ->
  int_of_header (md !! "Content-Length"%string) = Ok expected ->
  let msg :=
    if decide (streamed_size chunks = expected)
    then LogEtagMismatch head_key (streamed_etag chunks) (md !! "ETag"%string)
    else LogSizeMismatch head_key (streamed_size chunks)
                         (md !! "Content-Length"%string) in
  streamed_size chunks <> expected \/
    md !! "ETag"%string <> Some (streamed_etag chunks) ->
  exists r s',
    _audit_object device head_key s = (r, s') /\
    (r = Ok false \/ exists e, r = Raise e) /\
    quarantined (trace s') = quarantined (trace s) ++ [(device, head_key)] /\
    warnings (trace s') = warnings (trace s) ++ [msg].
Proof.
  intros Hstr Hsize msg Hbad.
  rewrite (_audit_object_streams _ _ _ _ _ _ Hstr). cbn. rewrite Hsize.
  destruct (streamed_frame device head_key chunks s) as (_ & Hq & Hw & _).
  set (s1 := streamed device head_key chunks s) in *.
  assert (forall m, m = msg -> exists r s',
    reject device head_key df m s1 = (r, s') /\
    (r = Ok false \/ exists e, r = Raise e) /\
    quarantined (trace s') = quarantined (trace s) ++ [(device, head_key)] /\
    warnings (trace s') = warnings (trace s) ++ [msg]) as Hrej.
  { intros m ->.
    destruct (reject_run device head_key df msg s1)
      as (r & s' & Hrun & Hr & Hq' & Hw' & _).
    exists r, s'. rewrite Hq', Hw', Hq, Hw. done. }
  subst msg. destruct (decide (streamed_size chunks = expected)) as [Heq|Hne].
  - rewrite (proj2 (Z.eqb_eq _ _) Heq). cbn.
    rewrite bool_decide_eq_false_2 by (intros E; destruct Hbad; congruence).
    cbn. by apply Hrej.
  - rewrite (proj2 (Z.eqb_neq _ _) Hne). cbn. by apply Hrej.
Qed.

Lemma audit_object_intact device head_key s :
  intact (store s) device head_key ->
  exists s',
    audit_object device head_key s = (Ok true, s') /\
    store s' = store s /\
    quarantined (trace s') = quarantined (trace s) /\
    warnings (trace s') = warnings (trace s).
Proof.
  intros Hi. destruct (_audit_object_intact _ _ _ Hi) as (s' & Hrun & ?).
  exists s'. by rewrite audit_object_run, Hrun.
Qed.

Lemma audit_object_vanished device head_key s :
  vanished (store s) device head_key ->
  exists s',
    audit_object device head_key s = (Ok true, s') /\
    store s' = store s /\
    quarantined (trace s') = quarantined (trace s) /\
    content_reads (trace s') = content_reads (trace s) /\
    ratelimit_calls (trace s') = ratelimit_calls (trace s) /\
    counters (self s') = counters (self s).
Proof.
  intros Hv. rewrite audit_object_run, (_audit_object_vanished _ _ _ Hv).
  eexists; split; [done|]. cbn.
  unfold quarantined, content_reads, ratelimit_calls.
  rewrite !omap_app. cbn. by rewrite !app_nil_r.
Qed.

Lemma audit_object_mismatch device head_key df md chunks expected s :
  streams (store s) device head_key df md chunks ->
  int_of_header (md !! "Content-Length"%string) = Ok expected ->
  streamed_size chunks <> expected \/
    md !! "ETag"%string <> Some (streamed_etag chunks) ->
  exists s',
    audit_object device head_key s = (Ok false, s') /\
    quarantined (trace s') = quarantined (trace s) ++ [(device, head_key)] /\
    warnings (trace s') = warnings (trace s) ++
      [if decide (streamed_size chunks = expected)
       then LogEtagMismatch head_key (streamed_etag chunks) (md !! "ETag"%string)
       else LogSizeMismatch head_key (streamed_size chunks)
                            (md !! "Content-Length"%string)].
Proof.
  intros Hstr Hsize Hbad.
  destruct (_audit_object_mismatch _ _ _ _ _ _ _ Hstr Hsize Hbad)
    as (r & s' & Hrun & Hr & Hq & Hw).
  rewrite audit_object_run, Hrun.
  destruct Hr as [->|[e ->]]; eexists; (split; [done|]); [done|].
  cbn. unfold quarantined, warnings in *. rewrite !omap_app, Hq, Hw. cbn.
  by rewrite !app_nil_r.
Qed.

(** What one turn of the loop of [_audit_device] does to the counters. *)
Lemma audit_location_counts device location s :
  exists success s1 s',
    audit_object device location (assign (stats_incr "found_objects") s).2
      = (Ok success, s1) /\
    audit_location device location s = (Ok tt, s') /\
    store s' = store s1 /\ trace s' = trace s1 /\
    stats (counters (self s'))
      = stats (stats_incr (if success then "success" else "failures")
                 (stats_incr "found_objects" (counters (self s)))).
Proof.
  destruct (audit_location_run device location s) as (b & s1 & Hrun & Hloc & Hst).
  exists b, s1. eexists. split; [done|]. split; [done|]. cbn.
  split; [done|]. split; [done|].
  unfold stats_incr, stats_get; cbn. by rewrite Hst.
Qed.

Lemma audit_location_stats device location s :
  exists success s1 s',
    audit_object device location (assign (stats_incr "found_objects") s).2
      = (Ok success, s1) /\
    audit_location device location s = (Ok tt, s') /\
    store s' = store s1 /\ trace s' = trace s1 /\
    let n k := stats_get k (counters (self s)) in
    let n' k := stats_get k (counters (self s')) in
    n' "found_objects"%string = n "found_objects"%string + 1 /\
    n' "success"%string = n "success"%string + (if success then 1 else 0) /\
    n' "failures"%string = n "failures"%string + (if success then 0 else 1) /\
    forall k, k ∉ object_keys -> n' k = n k.
Proof.
  destruct (audit_location_counts device location s)
    as (b & s1 & s' & Hrun & Hloc & Hst & Htr & Hstats).
  exists b, s1, s'. do 4 (split; [done|]).
  assert (forall k, stats_get k (counters (self s'))
            = stats_get k (stats_incr (if b then "success" else "failures")
                 (stats_incr "found_objects" (counters (self s))))) as Hget.
  { intros k. unfold stats_get at 1. by rewrite Hstats. }
  cbn. rewrite !Hget, !stats_get_incr.
  repeat split.
  - destruct b; repeat case_decide; try done; rewrite ?stats_get_incr;
      repeat destruct (decide _); try done; lia.
  - destruct b; repeat case_decide; try done; rewrite ?stats_get_incr;
      repeat destruct (decide _); try done; lia.
  - destruct b; repeat case_decide; try done; rewrite ?stats_get_incr;
      repeat destruct (decide _); try done; lia.
  - intros k Hk. rewrite Hget, !stats_get_incr. unfold object_keys in Hk.
    destruct b; repeat destruct (decide _); subst; try done; set_solver.
Qed.

(** ** Verification of one object *)

(** C1: an object whose streamed size equals its Content-Length and whose
    streamed digest equals its ETag is verified successfully: the audit
    answers success, counts it as a success, and the quarantine operation is
    not invoked. *)
Theorem verify_matching_object device head_key df md chunks s :
  streams (store s) device head_key df md chunks ->
  int_of_header (md !! "Content-Length"%string) = Ok (streamed_size chunks) ->
  md !! "ETag"%string = Some (streamed_etag chunks) ->
  (exists s',
     audit_object device head_key s = (Ok true, s') /\
     quarantined (trace s') = quarantined (trace s) /\
     store s' = store s) /\
  (exists s',
     audit_location device head_key s = (Ok tt, s') /\
     quarantined (trace s') = quarantined (trace s) /\
     stats_get "success" (counters (self s'))
       = stats_get "success" (counters (self s)) + 1 /\
     stats_get "failures" (counters (self s'))
       = stats_get "failures" (counters (self s))).
Proof.
  intros Hstr Hsize Hetag.
  assert (forall s0, store s0 = store s -> intact (store s0) device head_key) as Hi.
  { intros s0 ->. by exists df, md, chunks. }
  split.
  - destruct (audit_object_intact device head_key s) as (s' & ? & ? & ? & ?); eauto.
  - destruct (audit_location_stats device head_key s)
      as (b & s1 & s' & Hrun & Hloc & Hst & Htr & _ & Hok & Hfail & _).
    destruct (audit_object_intact device head_key
                (assign (stats_incr "found_objects") s).2)
      as (s1' & Hrun' & _ & Hq & _); [by apply Hi|].
    rewrite Hrun in Hrun'. injection Hrun' as -> ->.
    exists s'. rewrite Hok, Hfail, Htr, Hq. cbn. split; [done|]. split; [done|]. lia.
Qed.

(** C2: a size mismatch quarantines the object once and warns about the
    size, whatever the digest; with the size right, a digest mismatch
    quarantines it once and warns about the ETag.  Both are answered and
    counted as failures. *)
Theorem verify_mismatching_object device head_key df md chunks expected s :
  streams (store s) device head_key df md chunks ->
  int_of_header (md !! "Content-Length"%string) = Ok expected ->
  let reason :=
    if decide (streamed_size chunks = expected)
    then LogEtagMismatch head_key (streamed_etag chunks) (md !! "ETag"%string)
    else LogSizeMismatch head_key (streamed_size chunks)
                         (md !! "Content-Length"%string) in
  streamed_size chunks <> expected \/
    md !! "ETag"%string <> Some (streamed_etag chunks) ->
  (exists s',
     audit_object device head_key s = (Ok false, s') /\
     quarantined (trace s') = quarantined (trace s) ++ [(device, head_key)] /\
     warnings (trace s') = warnings (trace s) ++ [reason]) /\
  (exists s',
     audit_location device head_key s = (Ok tt, s') /\
     quarantined (trace s') = quarantined (trace s) ++ [(device, head_key)] /\
     warnings (trace s') = warnings (trace s) ++ [reason] /\
     stats_get "failures" (counters (self s'))
       = stats_get "failures" (counters (self s)) + 1 /\
     stats_get "success" (counters (self s'))
       = stats_get "success" (counters (self s))).
Proof.
  intros Hstr Hsize reason Hbad. split.
  - by apply (audit_object_mismatch _ _ df md chunks expected).
  - destruct (audit_location_stats device head_key s)
      as (b & s1 & s' & Hrun & Hloc & Hst & Htr & _ & Hok & Hfail & _).
    destruct (audit_object_mismatch device head_key df md chunks expected
                (assign (stats_incr "found_objects") s).2)
      as (s1' & Hrun' & Hq & Hw); [done..|].
    rewrite Hrun in Hrun'. injection Hrun' as -> ->.
    exists s'. rewrite Hok, Hfail, Htr, Hq, Hw. cbn.
    do 3 (split; [done|]). lia.
Qed.

(** C3: an object that is gone when it is opened is not quarantined, none
    of its content is read, and it is counted as a success, not a failure. *)
Theorem verify_vanished_object device head_key df s :
  get_diskfile_from_audit_location (store s) device head_key = Ok df ->
  df_open (store s) df = Raise DiskFileNotExist ->
  (exists s',
     audit_object device head_key s = (Ok true, s') /\
     quarantined (trace s') = quarantined (trace s) /\
     content_reads (trace s') = content_reads (trace s) /\
     ratelimit_calls (trace s') = ratelimit_calls (trace s) /\
     counters (self s') = counters (self s)) /\
  (exists s',
     audit_location device head_key s = (Ok tt, s') /\
     quarantined (trace s') = quarantined (trace s) /\
     content_reads (trace s') = content_reads (trace s) /\
     stats_get "success" (counters (self s'))
       = stats_get "success" (counters (self s)) + 1 /\
     stats_get "failures" (counters (self s'))
       = stats_get "failures" (counters (self s))).
Proof.
  intros Hdf Hopen.
  assert (forall s0, store s0 = store s -> vanished (store s0) device head_key) as Hv.
  { intros s0 ->. by exists df. }
  split.
  - destruct (audit_object_vanished device head_key s)
      as (s' & ? & ? & ? & ? & ? & ?); eauto 10.
  - destruct (audit_location_stats device head_key s)
      as (b & s1 & s' & Hrun & Hloc & Hst & Htr & _ & Hok & Hfail & _).
    destruct (audit_object_vanished device head_key
                (assign (stats_incr "found_objects") s).2)
      as (s1' & Hrun' & _ & Hq & Hr & _); [by apply Hv|].
    rewrite Hrun in Hrun'. injection Hrun' as -> ->.
    exists s'. rewrite Hok, Hfail, Htr, Hq, Hr. cbn.
    do 3 (split; [done|]). lia.
Qed.

(** ** Auditing a device *)

Lemma for_each_total {A} (body : A -> M unit) l :
  (forall x s, exists s', body x s = (Ok tt, s')) ->
  forall s, exists s', for_each body l s = (Ok tt, s').
Proof.
  intros Hb. induction l as [|x l IH]; intros s; cbn.
  - by eexists.
  - unfold bind. destruct (Hb x s) as [s1 ->]. apply IH.
Qed.

Lemma for_each_app {A} (body : A -> M unit) l1 l2 s :
  for_each body (l1 ++ l2) s = (for_each body l1 ;;; for_each body l2) s.
Proof.
  revert s. induction l1 as [|x l1 IH]; intros s; cbn; [done|].
  unfold bind in *. destruct (body x s) as [[[]|e] s1]; [apply IH|done].
Qed.

Lemma audit_location_total device location s :
  exists s', audit_location device location s = (Ok tt, s').
Proof.
  destruct (audit_location_stats device location s) as (? & ? & s' & _ & H & _).
  by exists s'.
Qed.

(** The loop body touches no entry of [stats] but its own three. *)
Lemma audit_location_other_keys device location k :
  k ∉ object_keys ->
  stable (same_on (fun s => stats_get k (counters (self s))))
         (audit_location device location).
Proof.
  intros Hk s.
  destruct (audit_location_stats device location s)
    as (? & ? & s' & _ & Hrun & _ & _ & _ & _ & _ & Hother).
  rewrite Hrun. unfold same_on. cbn. by apply Hother.
Qed.

Lemma device_success_not_object_key : "device.success"%string ∉ object_keys.
Proof.
  unfold object_keys. rewrite !not_elem_of_cons.
  repeat split; [done..|]. apply not_elem_of_nil.
Qed.

Lemma device_failures_not_object_key : "device.failures"%string ∉ object_keys.
Proof.
  unfold object_keys. rewrite !not_elem_of_cons.
  repeat split; [done..|]. apply not_elem_of_nil.
Qed.

#[local] Hint Resolve audit_location_other_keys
  device_success_not_object_key device_failures_not_object_key : stable.

Lemma _find_objects_run device s :
  _find_objects device s =
    match get_device_host_and_port device with
    | Raise e => (Raise e, s)
    | Ok hp =>
      let s1 := (emit (EvConnect hp) s).2 in
      match get_connection (store s) hp with
      | Raise e => (Raise e, s1)
      | Ok conn => (Ok (iterKeyRange (store s) conn "objects" "objects/"), s1)
      end
    end.
Proof.
  unfold _find_objects, bind; cbn.
  destruct (get_device_host_and_port device) as [hp|e]; cbn; [|done].
  by destruct (get_connection (store s) hp).
Qed.

(** [_audit_device] raises only what enumeration raises. *)
Lemma _audit_device_run device s :
  match _find_objects device s with
  | (Raise e, s1) => _audit_device device s = (Raise e, s1)
  | (Ok (locations, stop), s1) =>
    exists s',
      for_each (audit_location device) locations s1 = (Ok tt, s') /\
      _audit_device device s
        = (match stop with Some e => Raise e | None => Ok tt end, s')
  end.
Proof.
  unfold _audit_device, bind.
  destruct (_find_objects device s) as [[[locations stop]|e] s1]; [|done].
  destruct (for_each_total (audit_location device) locations
              (audit_location_total device) s1) as [s' Hloop].
  exists s'. rewrite Hloop. split; [done|]. by destruct stop.
Qed.

Lemma audit_device_run device s :
  audit_device device s
  = (Ok tt, (device_verdict device (_audit_device device s).1
               (_audit_device device s).2).2).
Proof.
  unfold audit_device, device_verdict, bind, try, log; cbn.
  destruct (_audit_device device s) as [[[]|e] s1]; cbn; [done|].
  by destruct e.
Qed.

Lemma audit_device_total device s :
  exists s', audit_device device s = (Ok tt, s').
Proof. rewrite audit_device_run. by eexists. Qed.

Lemma _audit_device_device_keys device k :
  k ∉ object_keys ->
  stable (same_on (fun s => stats_get k (counters (self s))))
         (_audit_device device).
Proof. intros Hk. stable_walk; leaf. Qed.

(** Every call of [audit_device] adds one to exactly one of the two device
    counters. *)
Lemma audit_device_counts device s :
  let n k s := stats_get k (counters (self s)) in
  let r := (_audit_device device s).1 in
  let s' := (audit_device device s).2 in
  n "device.success"%string s'
    = n "device.success"%string s + (if is_Ok r then 1 else 0) /\
  n "device.failures"%string s'
    = n "device.failures"%string s + (if is_Ok r then 0 else 1).
Proof.
  cbn. rewrite audit_device_run. cbn.
  pose proof (_audit_device_device_keys device _
                device_success_not_object_key s) as Hs.
  pose proof (_audit_device_device_keys device _
                device_failures_not_object_key s) as Hf.
  unfold same_on in Hs, Hf.
  destruct (_audit_device device s) as [[[]|e] s1]; cbn in *.
  - rewrite !stats_get_incr. repeat destruct (decide _); try done; lia.
  - destruct e; cbn; rewrite !stats_get_incr; repeat destruct (decide _); try done; lia.
Qed.

(** *** The trace only grows *)

#[local] Instance extends_preorder : PreOrder extends.
Proof.
  split; unfold extends; [intros s | intros s1 s2 s3 H1 H2]; [done|].
  by etrans.
Qed.

Ltac leaf_extends := intro; unfold extends; cbn; solve [done | by apply prefix_app_r].

Lemma audit_location_extends device location :
  stable extends (audit_location device location).
Proof. stable_walk; leaf_extends. Qed.

Lemma audit_device_extends device : stable extends (audit_device device).
Proof. stable_walk; leaf_extends. Qed.

Lemma for_each_audit_device_extends devices :
  stable extends (for_each audit_device devices).
Proof. apply stable_for_each; [apply _|]. apply audit_device_extends. Qed.

Lemma connects_extends hp s s' :
  extends s s' -> hp ∈ connects (trace s) -> hp ∈ connects (trace s').
Proof.
  intros [k Hk] Hin. rewrite Hk. unfold connects in *. rewrite omap_app.
  apply elem_of_app. by left.
Qed.

(** Auditing a device starts by connecting to it. *)
Lemma audit_device_connects device hp s :
  get_device_host_and_port device = Ok hp ->
  hp ∈ connects (trace (audit_device device s).2).
Proof.
  intros Hhp.
  assert (hp ∈ connects (trace (_find_objects device s).2)) as Hfound.
  { rewrite _find_objects_run, Hhp. cbn.
    assert (hp ∈ connects (trace s ++ [EvConnect hp])).
    { unfold connects. rewrite omap_app. cbn. apply elem_of_app. right.
      apply list_elem_of_singleton. done. }
    by destruct (get_connection (store s) hp). }
  assert (extends (_find_objects device s).2 (audit_device device s).2) as Hext.
  { rewrite audit_device_run.
    assert (extends (_find_objects device s).2 (_audit_device device s).2) as H1.
    { pose proof (_audit_device_run device s) as Hrun.
      destruct (_find_objects device s) as [[[locations stop]|e] s1]; cbn.
      - destruct Hrun as (s' & Hloop & ->). cbn.
        pose proof (stable_for_each extends (audit_location device) locations
                      (audit_location_extends device) s1) as H.
        by rewrite Hloop in H.
      - by rewrite Hrun. }
    etrans; [exact H1|].
    generalize (_audit_device device s).1, (_audit_device device s).2.
    intros r s1. unfold device_verdict.
    destruct r as [|[]]; unfold extends; cbn; try done;
      rewrite <- ?app_assoc; by apply prefix_app_r. }
  by eapply connects_extends.
Qed.

Lemma for_each_audit_device_run devices : forall s,
  exists s',
    for_each audit_device devices s = (Ok tt, s') /\
    stats_get "device.success" (counters (self s'))
      + stats_get "device.failures" (counters (self s'))
    = stats_get "device.success" (counters (self s))
      + stats_get "device.failures" (counters (self s))
      + Z.of_nat (length devices) /\
    forall device hp,
      device ∈ devices -> get_device_host_and_port device = Ok hp ->
      hp ∈ connects (trace s').
Proof.
  induction devices as [|d devices IH]; intros s.
  - exists s. cbn. split; [done|]. split; [lia|]. intros ? ? H. by apply elem_of_nil in H.
  - destruct (audit_device_total d s) as [s1 Hd].
    destruct (IH s1) as (s' & Hrest & Hcount & Hconn).
    exists s'. split; [|split].
    + cbn. unfold bind. by rewrite Hd.
    + pose proof (audit_device_counts d s) as [Hs Hf]. rewrite Hd in Hs, Hf.
      cbn in Hs, Hf. cbn [length]. rewrite Hcount, Hs, Hf.
      destruct (is_Ok _); lia.
    + intros device hp [->|Hin]%elem_of_cons Hhp; [|by eapply Hconn].
      pose proof (audit_device_connects d hp s Hhp) as H. rewrite Hd in H.
      eapply connects_extends; [|exact H].
      pose proof (for_each_audit_device_extends devices s1) as He.
      by rewrite Hrest in He.
Qed.


(** ** Per-sweep statistics *)

Lemma run_once_split devices_arg s :
  run_once devices_arg s = after_reset devices_arg (reset_stats s).2.
Proof. reflexivity. Qed.

#[local] Instance keeps_consistent_preorder : PreOrder keeps_consistent.
Proof. split; unfold keeps_consistent; [intros s | intros s1 s2 s3]; auto. Qed.

Lemma audit_location_consistent device location :
  stable keeps_consistent (audit_location device location).
Proof.
  intros s Hs.
  destruct (audit_location_stats device location s)
    as (b & ? & s' & _ & Hrun & _ & _ & Hfound & Hok & Hfail & _).
  rewrite Hrun. unfold consistent in *. cbn in *.
  rewrite Hfound, Hok, Hfail, Hs. destruct b; lia.
Qed.

#[local] Hint Resolve audit_location_consistent : stable.

Ltac leaf_consistent :=
  intro; unfold keeps_consistent, consistent; cbn;
  rewrite ?stats_get_incr; repeat destruct (decide _); try done.

Lemma after_reset_consistent devices_arg :
  stable keeps_consistent (after_reset devices_arg).
Proof. stable_walk; leaf_consistent. Qed.


(** *** Counters only grow within a sweep *)

#[local] Instance counters_le_preorder : PreOrder counters_le.
Proof.
  split.
  - intros c. unfold counters_le. repeat split; intros; lia.
  - intros c1 c2 c3 (H1 & ?) (H2 & ?). unfold counters_le.
    split; [intros k; specialize (H1 k); specialize (H2 k); lia | lia].
Qed.

Lemma ascending_app c h1 h2 :
  ascending c h1 -> ascending (final c h1) h2 -> ascending c (h1 ++ h2).
Proof.
  revert c. induction h1 as [|c1 h1 IH]; intros c H1 H2; [done|].
  destruct H1 as [Hle H1]. split; [done|]. by apply IH.
Qed.

#[local] Instance grows_preorder : PreOrder grows.
Proof.
  split.
  - intros s. exists []. by rewrite app_nil_r.
  - intros s1 s2 s3 (h1 & H1 & A1 & L1) (h2 & H2 & A2 & L2).
    exists (h1 ++ h2). rewrite H2, H1, app_assoc. split; [done|].
    rewrite L1 in A2, L2. split; [by apply ascending_app|].
    rewrite L2. unfold final. by rewrite fold_left_app.
Qed.

Lemma stats_incr_le k c : counters_le c (stats_incr k c).
Proof.
  unfold counters_le; cbn. split; [|lia].
  intros k'. rewrite stats_get_incr. destruct (decide _); subst; lia.
Qed.

Lemma grows_assign f :
  (forall c, counters_le c (f c)) -> stable grows (assign f).
Proof. intros Hf s. exists [f (counters (self s))]. cbn. auto. Qed.

Ltac leaf_grows :=
  first
    [ apply grows_assign; intros ?;
      first [ apply stats_incr_le
            | unfold counters_le, stats_get; cbn; split; [intros; lia | lia] ]
    | intros ?; exists []; cbn; by rewrite app_nil_r ].

Lemma after_reset_grows devices_arg : stable grows (after_reset devices_arg).
Proof. stable_walk; leaf_grows. Qed.

(** ** Computations that ignore part of the state *)

Section Respects.
Context (E : relation State).

Lemma respects_ret {A} (a : A) : respects E (ret a).
Proof. by intros s1 s2 H. Qed.

Lemma respects_raise {A} e : respects E (@raise _ _ A e).
Proof. by intros s1 s2 H. Qed.

Lemma respects_lift {A} (r : res A) : respects E (lift r).
Proof. by intros s1 s2 H. Qed.

Lemma respects_bind {A B} (m : M A) (k : A -> M B) :
  respects E m -> (forall a, respects E (k a)) -> respects E (bind m k).
Proof.
  intros Hm Hk s1 s2 H. unfold bind. destruct (Hm s1 s2 H) as [Hr Hs].
  destruct (m s1) as [r1 s1'], (m s2) as [r2 s2']. cbn in *. subst r2.
  destruct r1 as [a|e]; [by apply Hk|done].
Qed.

Lemma respects_try {A} (m : M A) : respects E m -> respects E (try m).
Proof.
  intros Hm s1 s2 H. destruct (Hm s1 s2 H) as [Hr Hs]. unfold try. cbn.
  by rewrite Hr.
Qed.

Lemma respects_for_each {A} (body : A -> M unit) l :
  (forall x, respects E (body x)) -> respects E (for_each body l).
Proof.
  intros Hb. induction l as [|x l IH]; cbn.
  - apply respects_ret.
  - apply respects_bind; auto.
Qed.

Lemma respects_audit_chunks device head_key chunks :
  (forall acc chunk, respects E (audit_chunk device head_key acc chunk)) ->
  forall acc, respects E (audit_chunks device head_key acc chunks).
Proof.
  intros Hc. induction chunks as [|c chunks IH]; intros acc; cbn.
  - apply respects_ret.
  - apply respects_bind; auto.
Qed.

Lemma respects_iterations n devices_arg :
  respects E (run_forever_iteration devices_arg) ->
  respects E (iterations n devices_arg).
Proof.
  intros Hi. induction n as [|n IH]; cbn.
  - apply respects_ret.
  - apply respects_bind; auto.
Qed.

End Respects.

(** The same walk for [respects]. *)
Ltac respects_step :=
  lazymatch goal with
  | |- respects _ (ret _) => apply respects_ret
  | |- respects _ (raise _) => apply respects_raise
  | |- respects _ (lift _) => apply respects_lift
  | |- respects _ (bind _ _) => apply respects_bind; [ | intros ? ]
  | |- respects _ (try _) => apply respects_try
  | |- respects _ (for_each _ _) => apply respects_for_each; intros ?
  | |- respects _ (audit_chunks _ _ _ _) =>
    apply respects_audit_chunks; intros ? ?
  | |- respects _ (iterations _ _) => apply respects_iterations
  | |- respects _ (match ?x with _ => _ end) => destruct x
  | |- respects _ (emit _) => fail
  | |- respects _ (assign _) => fail
  | |- respects _ (with_env _) => fail
  | |- respects _ (set_store _) => fail
  | |- respects _ (attr _) => fail
  | |- respects _ get_store => fail
  | |- respects _ ?m => let h := head_of m in progress unfold h
  end.

Ltac respects_walk := repeat respects_step.

Ltac leaf_agree :=
  let H := fresh in
  intros ? ? H; unfold agree, but_files_per_second, but_history in *;
  cbn in *; simplify_eq; split; congruence.

Lemma run_once_but_files_per_second devices_arg :
  respects (agree but_files_per_second) (run_once devices_arg).
Proof. respects_walk; leaf_agree. Qed.

Lemma run_forever_but_files_per_second n devices_arg :
  respects (agree but_files_per_second) (run_forever n devices_arg).
Proof. respects_walk; leaf_agree. Qed.

Lemma after_reset_but_history devices_arg :
  respects (agree but_history) (after_reset devices_arg).
Proof. respects_walk; leaf_agree. Qed.

(** C7: during a sweep no counter ever decreases, and the sweep starts from
    counters that are all zero, so that what they hold at its end does not
    depend on what they held before. *)
Theorem counters_within_sweep devices_arg s :
  let s' := (run_once devices_arg s).2 in
  (exists h,
     history s' = history s ++ zero_counters :: h /\
     all_zero zero_counters /\
     ascending zero_counters h /\
     counters (self s') = final zero_counters h) /\
  (forall c h,
     counters (self (run_once devices_arg (with_past c h s)).2)
     = counters (self s')).
Proof.
  cbn. split.
  - rewrite run_once_split.
    destruct (after_reset_grows devices_arg (reset_stats s).2) as (h & Hh & Ha & Hl).
    exists h. cbn in *. rewrite Hh, <- app_assoc. split; [done|].
    split; [|done]. unfold all_zero, stats_get. cbn. split; [|done].
    intros k. by rewrite lookup_empty.
  - intros c h. rewrite !run_once_split.
    destruct (after_reset_but_history devices_arg
                (reset_stats (with_past c h s)).2 (reset_stats s).2) as [_ H].
    + reflexivity.
    + unfold agree, but_history in H. injection H as Hself _ _ _.
      exact (f_equal counters Hself).
Qed.

(** ** The files-per-second budget *)

#[local] Instance budgeted_preorder : PreOrder budgeted.
Proof.
  split.
  - intros s. split; [done|]. exists []. by rewrite app_nil_r.
  - intros s1 s2 s3 (H1 & tr1 & T1 & F1) (H2 & tr2 & T2 & F2).
    split; [congruence|]. exists (tr1 ++ tr2).
    rewrite T2, T1, app_assoc. split; [done|].
    apply Forall_app. split; [done|]. by rewrite <- H1.
Qed.

Lemma audit_chunk_budgeted device head_key acc chunk :
  stable budgeted (audit_chunk device head_key acc chunk).
Proof.
  intros s. destruct acc as [etag size]. split; [done|]. cbn.
  eexists [_; _]. rewrite <- app_assoc. split; [done|].
  repeat constructor.
Qed.

#[local] Hint Resolve audit_chunk_budgeted : stable.

Ltac leaf_budgeted :=
  intro; split; [done|]; cbn;
  first [ exists []; by rewrite app_nil_r
        | eexists [_]; split; [done|]; by repeat constructor ].

Lemma run_once_budgeted devices_arg : stable budgeted (run_once devices_arg).
Proof. stable_walk; leaf_budgeted. Qed.

Lemma run_forever_budgeted n devices_arg :
  stable budgeted (run_forever n devices_arg).
Proof. stable_walk; leaf_budgeted. Qed.

Lemma __init___but_files_per_second conf1 conf2 a1 a2 st e :
  delete "files_per_second"%string conf1 = delete "files_per_second"%string conf2 ->
  __init__ conf1 = Ok a1 -> __init__ conf2 = Ok a2 ->
  agree but_files_per_second (boot a1 st e) (boot a2 st e).
Proof.
  intros Hconf H1 H2.
  assert (forall k, k <> "files_per_second"%string -> conf1 !! k = conf2 !! k) as Hk.
  { intros k Hne.
    rewrite <- (lookup_delete_ne conf1 "files_per_second" k) by done.
    rewrite Hconf. by apply lookup_delete_ne. }
  unfold __init__, conf_float in *.
  rewrite <- (Hk "swift_dir"%string), <- (Hk "bytes_per_second"%string) in H2 by done.
  repeat case_match; simplify_eq; reflexivity.
Qed.

(** C8: the files-per-second setting reaches nothing.  Two auditors built
    from configurations that differ in that setting only, run in the same
    world, end with the same outcome, counters, store and trace of calls,
    for one sweep as for the daemon loop; and every call of the rate
    limiter passes the bytes-per-second budget. *)
Theorem files_per_second_unused conf1 conf2 a1 a2 st e devices_arg n :
  delete "files_per_second"%string conf1 = delete "files_per_second"%string conf2 ->
  __init__ conf1 = Ok a1 ->
  __init__ conf2 = Ok a2 ->
  (let r1 := run_once devices_arg (boot a1 st e) in
   let r2 := run_once devices_arg (boot a2 st e) in
   r1.1 = r2.1 /\
   but_files_per_second r1.2 = but_files_per_second r2.2 /\
   Forall (within_budget (max_bytes_per_second a1)) (trace r1.2)) /\
  (let r1 := run_forever n devices_arg (boot a1 st e) in
   let r2 := run_forever n devices_arg (boot a2 st e) in
   r1.1 = r2.1 /\
   but_files_per_second r1.2 = but_files_per_second r2.2 /\
   Forall (within_budget (max_bytes_per_second a1)) (trace r1.2)).
Proof.
  intros Hconf H1 H2.
  pose proof (__init___but_files_per_second _ _ _ _ st e Hconf H1 H2) as Hboot.
  split; intros r1 r2; subst r1 r2.
  - destruct (run_once_but_files_per_second devices_arg _ _ Hboot) as [Hr Hs].
    do 2 (split; [done|]).
    destruct (run_once_budgeted devices_arg (boot a1 st e)) as (_ & tr & Htr & Hall).
    by rewrite Htr.
  - destruct (run_forever_but_files_per_second n devices_arg _ _ Hboot) as [Hr Hs].
    do 2 (split; [done|]).
    destruct (run_forever_budgeted n devices_arg (boot a1 st e)) as (_ & tr & Htr & Hall).
    by rewrite Htr.
Qed.

(** ** The daemon loop *)

#[local] Instance quiet_preorder : PreOrder quiet.
Proof.
  split.
  - intros s. exists []. by rewrite app_nil_r.
  - intros s1 s2 s3 (tr1 & T1 & F1) (tr2 & T2 & F2). exists (tr1 ++ tr2).
    rewrite T2, T1, app_assoc. split; [done|].
    by rewrite List.filter_app, F1, F2.
Qed.

Ltac leaf_quiet :=
  intro; cbn; first [ by exists [] ; rewrite app_nil_r | by eexists [_] ].

Lemma run_once_quiet devices_arg : stable quiet (run_once devices_arg).
Proof. stable_walk; leaf_quiet. Qed.

(** C6: the interval is 30 seconds; in each turn of the loop the elapsed
    time of the sweep is logged and published under [object_audit_sweep],
    and then the scheduler sleeps [interval - elapsed] when the sweep took
    less than the interval, and does not sleep at all otherwise. *)
Theorem sweep_pacing :
  (forall conf a, __init__ conf = Ok a -> interval a = 30) /\
  (forall devices_arg s s',
     run_forever_iteration devices_arg s = (Ok tt, s') ->
     exists finish sweep,
       let begin := (time_time (env s)).1 in
       let elapsed := fsub finish begin in
       let pause := float_of_int (interval (self s)) in
       trace s' =
         trace s ++ [EvTime begin; EvLog Info LogBeginSweep] ++ sweep ++
         [EvTime finish; EvLog Info (LogSweepCompleted elapsed);
          EvRecon "object_audit_sweep" elapsed] ++
         (if flt elapsed pause then [EvSleep (fsub pause elapsed)] else []) /\
       List.filter is_pacing sweep = [] /\
       interval (self s') = interval (self s)).
Proof.
  split.
  - intros conf a. unfold __init__.
    repeat case_match; try done. by intros [= <-].
  - intros devices_arg s s' Hrun.
    unfold run_forever_iteration, now, log, dump_recon_cache, sleep,
      reset_stats, bind in Hrun; cbn in Hrun.
    match type of Hrun with
    | context [run_once devices_arg ?s0] => set (s1 := s0) in *
    end.
    destruct (run_once_quiet devices_arg s1) as (sweep & Htr & Hq).
    pose proof (run_once_configuration devices_arg s1) as Hconf.
    unfold same_on, configuration in Hconf.
    destruct (run_once devices_arg s1) as [[[]|e] s2]; [|done]. cbn in *.
    injection Hconf as _ _ _ Hiv.
    exists (time_time (env s2)).1, sweep.
    rewrite Hiv in Hrun.
    destruct (flt _ _); cbn in Hrun; injection Hrun as <-; cbn; rewrite Htr;
      rewrite <- ?app_assoc; cbn; done.
Qed.

(** ** Which devices a sweep audits *)

Lemma sweep_devices_run devices_arg s :
  sweep_devices devices_arg s
  = (devices_for devices_arg (swift_dir (self s)), s).
Proof.
  unfold sweep_devices, devices_for, _get_devices, bind, attr, lift; cbn.
  destruct (list_from_csv devices_arg); [|done].
  by destruct (device_names _).
Qed.

Lemma device_names_elem devs names name :
  device_names devs = Ok names ->
  name ∈ names <-> exists d, d ∈ devs /\ names_device d name.
Proof.
  revert names. induction devs as [|d devs IH]; intros names; cbn.
  - intros [= <-]. split; [by intros ?%elem_of_nil|].
    by intros (? & ?%elem_of_nil & _).
  - assert (forall names,
      device_names devs = Ok names ->
      (forall n, ~ names_device d n) ->
      name ∈ names <-> exists d', d' ∈ d :: devs /\ names_device d' name) as Hskip.
    { intros names' Hn Hnot. rewrite (IH _ Hn). split.
      - intros (d' & ? & ?). exists d'. split; [by right|done].
      - intros (d' & [->|?]%elem_of_cons & Hd'); [by destruct (Hnot name)|eauto]. }
    destruct d as [dict|].
    + destruct (decide (dict = ∅)) as [->|Hne].
      * intros Hn. apply Hskip; [done|]. by intros n (? & [= <-] & ? & _).
      * destruct (dict !! "device"%string) as [n0|] eqn:Hdev; [|done].
        destruct (device_names devs) as [l|]; [|done]. intros [= <-].
        rewrite elem_of_cons, (IH l eq_refl). split.
        -- intros [->|(d' & ? & ?)].
           ++ exists (Some dict). split; [by left|]. by exists dict.
           ++ exists d'. split; [by right|done].
        -- intros (d' & [->|?]%elem_of_cons & Hd').
           ++ left. destruct Hd' as (? & [= <-] & _ & ?). congruence.
           ++ right. eauto.
    + intros Hn. apply Hskip; [done|]. by intros n (? & ? & _).
Qed.

Lemma device_names_total devs :
  (forall dict, Some dict ∈ devs -> dict <> ∅ -> is_Some (dict !! "device"%string)) ->
  exists names, device_names devs = Ok names.
Proof.
  induction devs as [|d devs IH]; intros Hdev; cbn; [by eexists|].
  destruct IH as [names Hn].
  { intros dict ? ?. apply Hdev; [by right|done]. }
  rewrite Hn. destruct d as [dict|]; [|by eexists].
  destruct (decide (dict = ∅)) as [|Hne]; [by eexists|].
  destruct (Hdev dict) as [name ->]; [by left|done|]. by eexists.
Qed.

Lemma all_ring_devs_elem d dir :
  d ∈ all_ring_devs dir <->
  exists policy, policy ∈ POLICIES /\ d ∈ get_object_ring_devs policy dir.
Proof.
  unfold all_ring_devs. induction POLICIES as [|p ps IH]; cbn.
  - split; [by intros ?%elem_of_nil|]. by intros (? & ?%elem_of_nil & _).
  - rewrite elem_of_app, IH. split.
    + intros [?|(policy & ? & ?)]; [exists p | exists policy];
        (split; [|done]); [by left | by right].
    + intros (policy & [->|?]%elem_of_cons & ?); [by left|right; eauto].
Qed.

(** What [run_once] does with the devices it settled on. *)
Lemma run_once_devices devices_arg devices s :
  (sweep_devices devices_arg s).1 = Ok devices ->
  let s' := (run_once devices_arg s).2 in
  (run_once devices_arg s).1 = Ok tt /\
  stats_get "device.success" (counters (self s'))
    + stats_get "device.failures" (counters (self s'))
  = Z.of_nat (length devices) /\
  forall device hp,
    device ∈ devices -> get_device_host_and_port device = Ok hp ->
    hp ∈ connects (trace s').
Proof.
  rewrite sweep_devices_run. cbn. intros Hdev.
  rewrite run_once_split. unfold after_reset, bind.
  rewrite sweep_devices_run. cbn. rewrite Hdev. cbn.
  match goal with
  | |- context [for_each audit_device devices ?s0] =>
    destruct (for_each_audit_device_run devices s0) as (s1 & -> & Hcount & Hconn)
  end.
  cbn in *. split; [done|]. split.
  - rewrite Hcount. unfold stats_get. cbn. rewrite !lookup_empty. cbn. lia.
  - intros device hp Hin Hhp. unfold connects.
    rewrite !omap_app, !elem_of_app. left. left. by eapply Hconn.
Qed.

(** C4, as the code has it: a non-empty override list is the list of
    devices of the sweep, as it is, in its order and with its repetitions;
    with no override the devices are, without repetition, the names of the
    ring entries of all policies that are dicts and not empty.  The sweep
    audits each element of that list, connecting to each. *)
Theorem sweep_device_list devices_arg s :
  (list_from_csv devices_arg <> [] ->
   sweep_devices devices_arg s = (Ok (list_from_csv devices_arg), s)) /\
  (list_from_csv devices_arg = [] ->
   (forall policy dict,
      policy ∈ POLICIES ->
      Some dict ∈ get_object_ring_devs policy (swift_dir (self s)) ->
      dict <> ∅ -> is_Some (dict !! "device"%string)) ->
   exists devices,
     sweep_devices devices_arg s = (Ok devices, s) /\
     NoDup devices /\
     forall name,
       name ∈ devices <->
       exists policy d,
         policy ∈ POLICIES /\
         d ∈ get_object_ring_devs policy (swift_dir (self s)) /\
         names_device d name) /\
  (forall devices,
     (sweep_devices devices_arg s).1 = Ok devices ->
     let s' := (run_once devices_arg s).2 in
     (run_once devices_arg s).1 = Ok tt /\
     stats_get "device.success" (counters (self s'))
       + stats_get "device.failures" (counters (self s'))
     = Z.of_nat (length devices) /\
     forall device hp,
       device ∈ devices -> get_device_host_and_port device = Ok hp ->
       hp ∈ connects (trace s')).
Proof.
  split; [|split].
  - intros Hne. rewrite sweep_devices_run. unfold devices_for.
    by destruct (list_from_csv devices_arg).
  - intros Hnil Hring. rewrite sweep_devices_run. unfold devices_for. rewrite Hnil.
    destruct (device_names_total (all_ring_devs (swift_dir (self s)))) as [names Hn].
    { intros dict (policy & ? & ?)%all_ring_devs_elem. eauto. }
    rewrite Hn. eexists. split; [done|]. split; [apply NoDup_elements|].
    intros name. rewrite elem_of_elements, elem_of_list_to_set.
    rewrite (device_names_elem _ _ name Hn). split.
    + intros (d & (policy & ? & ?)%all_ring_devs_elem & ?). eauto.
    + intros (policy & d & ? & ? & ?). exists d. split; [|done].
      apply all_ring_devs_elem. eauto.
  - intros devices. apply run_once_devices.
Qed.

(** ** Sweeps over an uncorrupted store *)

Lemma audit_location_sound device location s :
  intact (store s) device location \/ vanished (store s) device location ->
  exists s',
    audit_location device location s = (Ok tt, s') /\
    store s' = store s /\
    quarantined (trace s') = quarantined (trace s) /\
    stats_get "success" (counters (self s'))
      = stats_get "success" (counters (self s)) + 1.
Proof.
  intros Hsound.
  destruct (audit_location_stats device location s)
    as (b & s1 & s' & Hrun & Hloc & Hst & Htr & _ & Hok & _).
  set (s0 := (assign (stats_incr "found_objects") s).2) in *.
  assert (exists s1', audit_object device location s0 = (Ok true, s1') /\
            store s1' = store s /\
            quarantined (trace s1') = quarantined (trace s)) as (s1' & Hrun' & ? & ?).
  { destruct Hsound as [Hi|Hv].
    - destruct (audit_object_intact device location s0 Hi) as (x & ? & ? & ? & _).
      by exists x.
    - destruct (audit_object_vanished device location s0 Hv) as (x & ? & ? & ? & _).
      by exists x. }
  rewrite Hrun in Hrun'. injection Hrun' as -> ->.
  exists s'. cbn in Hok. rewrite Hok, Hst, Htr. done.
Qed.

Lemma audit_locations_sound device locations : forall s,
  (forall location, location ∈ locations ->
     intact (store s) device location \/ vanished (store s) device location) ->
  exists s',
    for_each (audit_location device) locations s = (Ok tt, s') /\
    store s' = store s /\
    quarantined (trace s') = quarantined (trace s) /\
    stats_get "success" (counters (self s'))
      = stats_get "success" (counters (self s)) + Z.of_nat (length locations).
Proof.
  induction locations as [|l locations IH]; intros s Hall.
  - exists s. cbn. repeat split; lia.
  - destruct (audit_location_sound device l s) as (s1 & Hrun & Hst & Hq & Hn).
    { apply Hall. by left. }
    destruct (IH s1) as (s' & Hrest & Hst' & Hq' & Hn').
    { intros ? ?. rewrite Hst. apply Hall. by right. }
    exists s'. cbn [for_each]. unfold bind. rewrite Hrun, Hrest.
    split; [done|]. rewrite Hst', Hq', Hn', Hst, Hq, Hn. cbn [length].
    repeat split; lia.
Qed.

Lemma audit_device_sound device s :
  (forall location, location ∈ listed_keys (store s) device ->
     intact (store s) device location \/ vanished (store s) device location) ->
  let s' := (audit_device device s).2 in
  store s' = store s /\
  quarantined (trace s') = quarantined (trace s) /\
  stats_get "success" (counters (self s'))
    = stats_get "success" (counters (self s))
      + Z.of_nat (length (listed_keys (store s) device)).
Proof.
  intros Hall s'. subst s'. rewrite audit_device_run. cbn [snd].
  assert (let s1 := (_audit_device device s).2 in
          store s1 = store s /\
          quarantined (trace s1) = quarantined (trace s) /\
          stats_get "success" (counters (self s1))
            = stats_get "success" (counters (self s))
              + Z.of_nat (length (listed_keys (store s) device))) as Hdev.
  { pose proof (_audit_device_run device s) as Hrun.
    rewrite _find_objects_run in Hrun. unfold listed_keys in *.
    destruct (get_device_host_and_port device) as [hp|e]; cbn in *.
    - destruct (get_connection (store s) hp) as [conn|e].
      + destruct (iterKeyRange _ _ _ _) as [locations stop]. cbn in *.
        destruct Hrun as (s1 & Hloop & ->). cbn.
        destruct (audit_locations_sound device locations
                    (emit (EvConnect hp) s).2 Hall)
          as (s1' & Hloop' & Hst & Hq & Hn).
        pose proof (eq_trans (eq_sym Hloop) Hloop') as Heq.
        injection Heq as <-.
        rewrite Hst, Hq, Hn. cbn. unfold quarantined. rewrite omap_app. cbn.
        by rewrite app_nil_r.
      + rewrite Hrun. cbn. unfold quarantined. rewrite omap_app. cbn.
        rewrite app_nil_r. repeat split; lia.
    - rewrite Hrun. cbn. repeat split; lia. }
  cbn in Hdev. destruct Hdev as (Hst & Hq & Hn).
  assert (forall r s1,
            let s' := (device_verdict device r s1).2 in
            store s' = store s1 /\
            quarantined (trace s') = quarantined (trace s1) /\
            stats_get "success" (counters (self s'))
              = stats_get "success" (counters (self s1))) as Hverdict.
  { intros r s1. unfold device_verdict.
    destruct r as [|[]]; cbn;
      unfold quarantined; rewrite ?omap_app; cbn; rewrite ?app_nil_r;
      rewrite stats_get_incr; destruct (decide _); done. }
  destruct (Hverdict (_audit_device device s).1 (_audit_device device s).2)
    as (Hst' & Hq' & Hn').
  split; [by etrans|]. split; [by etrans|]. by etrans.
Qed.

Lemma audit_devices_sound devices : forall s,
  uncorrupted (store s) devices ->
  let s' := (for_each audit_device devices s).2 in
  store s' = store s /\
  quarantined (trace s') = quarantined (trace s) /\
  stats_get "success" (counters (self s'))
    = stats_get "success" (counters (self s)) + expected_success (store s) devices.
Proof.
  induction devices as [|d devices IH]; intros s Hall; cbn.
  - repeat split; lia.
  - unfold bind. destruct (audit_device_total d s) as [s1 Hrun].
    destruct (audit_device_sound d s) as (Hst & Hq & Hn).
    { intros location ?. apply Hall; [by left|done]. }
    rewrite Hrun in *. cbn in Hst, Hq, Hn.
    destruct (IH s1) as (Hst' & Hq' & Hn').
    { intros device location ? ?. rewrite Hst in *. apply Hall; [by right|done]. }
    cbn in Hst', Hq', Hn'. rewrite Hst', Hq', Hn', Hst, Hq, Hn.
    unfold expected_success. repeat split; lia.
Qed.

Lemma run_once_sound devices_arg s :
  (forall devices,
     devices_for devices_arg (swift_dir (self s)) = Ok devices ->
     uncorrupted (store s) devices) ->
  let s' := (run_once devices_arg s).2 in
  store s' = store s /\
  quarantined (trace s') = quarantined (trace s) /\
  swift_dir (self s') = swift_dir (self s) /\
  stats_get "success" (counters (self s'))
    = match devices_for devices_arg (swift_dir (self s)) with
      | Ok devices => expected_success (store s) devices
      | Raise _ => 0
      end.
Proof.
  intros Hall. cbn.
  pose proof (run_once_configuration devices_arg s) as Hconf.
  unfold same_on, configuration in Hconf. injection Hconf as Hdir _ _ _.
  rewrite Hdir. clear Hdir.
  rewrite run_once_split. unfold after_reset, bind.
  rewrite sweep_devices_run. cbn.
  destruct (devices_for devices_arg (swift_dir (self s))) as [devices|e]; cbn.
  - match goal with
    | |- context [for_each audit_device devices ?s0] =>
      destruct (audit_devices_sound devices s0) as (Hst & Hq & Hn);
        [by apply Hall|];
      destruct (for_each_audit_device_run devices s0) as (s1 & Hrun & _)
    end.
    rewrite Hrun in *. cbn in *. rewrite Hst, Hn.
    unfold quarantined in *. rewrite !omap_app, Hq, !omap_app. cbn.
    rewrite !app_nil_r. unfold stats_get. cbn. rewrite lookup_empty. cbn.
    repeat split; lia.
  - unfold stats_get. cbn. by rewrite lookup_empty.
Qed.

(** C9: two consecutive sweeps over devices whose listed objects all match
    their metadata count the same successes, make no quarantine call, and
    leave the store as it was. *)
Theorem consecutive_sweeps devices_arg s :
  (forall devices,
     (sweep_devices devices_arg s).1 = Ok devices ->
     uncorrupted (store s) devices) ->
  let s1 := (run_once devices_arg s).2 in
  let s2 := (run_once devices_arg s1).2 in
  stats_get "success" (counters (self s1))
    = stats_get "success" (counters (self s2)) /\
  quarantined (trace s1) = quarantined (trace s) /\
  quarantined (trace s2) = quarantined (trace s1) /\
  store s1 = store s /\ store s2 = store s1.
Proof.
  intros Hall s1 s2. subst s1 s2.
  assert (forall devices,
            devices_for devices_arg (swift_dir (self s)) = Ok devices ->
            uncorrupted (store s) devices) as Hall'.
  { intros devices Hd. apply Hall. by rewrite sweep_devices_run. }
  destruct (run_once_sound devices_arg s Hall') as (Hst & Hq & Hdir & Hn).
  destruct (run_once_sound devices_arg (run_once devices_arg s).2)
    as (Hst' & Hq' & _ & Hn').
  { rewrite Hst, Hdir. done. }
  cbn in *. rewrite Hn, Hn', Hdir, Hst. repeat split; congruence.
Qed.

(** ** Failures that are not mismatches *)

Lemma _audit_object_locate_error device head_key e s :
  get_diskfile_from_audit_location (store s) device head_key = Raise e ->
  _audit_object device head_key s = (Raise e, s).
Proof. intros H. unfold _audit_object, bind; cbn. by rewrite H. Qed.

Lemma _audit_object_open_error device head_key df e s :
  get_diskfile_from_audit_location (store s) device head_key = Ok df ->
  df_open (store s) df = Raise e -> e <> DiskFileNotExist ->
  _audit_object device head_key s = (Raise e, (emit (EvOpen device head_key) s).2).
Proof.
  intros Hdf Hopen Hne. unfold _audit_object, bind, try; cbn.
  rewrite Hdf; cbn. rewrite Hopen; cbn. by destruct e.
Qed.

Lemma _audit_object_metadata_error device head_key df e s :
  get_diskfile_from_audit_location (store s) device head_key = Ok df ->
  df_open (store s) df = Ok tt ->
  df_get_metadata (store s) df = Raise e ->
  _audit_object device head_key s = (Raise e, (emit (EvOpen device head_key) s).2).
Proof.
  intros Hdf Hopen Hmd. unfold _audit_object, bind, try; cbn.
  rewrite Hdf; cbn. rewrite Hopen; cbn. by rewrite Hmd.
Qed.

Lemma _audit_object_read_error device head_key df md chunks e s :
  get_diskfile_from_audit_location (store s) device head_key = Ok df ->
  df_open (store s) df = Ok tt ->
  df_get_metadata (store s) df = Ok md ->
  df_iter (store s) df = (chunks, Some e) ->
  _audit_object device head_key s = (Raise e, streamed device head_key chunks s).
Proof.
  intros Hdf Hopen Hmd Hiter. unfold _audit_object, streamed, bind, try; cbn.
  rewrite Hdf; cbn. rewrite Hopen; cbn. rewrite Hmd; cbn. rewrite Hiter.
  pose proof (audit_chunks_value device head_key chunks (md5_new, 0)
                (emit (EvOpen device head_key) s).2) as Hv.
  cbn in Hv.
  destruct (audit_chunks _ _ _ _ _) as [r s1]. cbn in Hv. subst r. done.
Qed.

(** What streaming a body adds to the trace and to the byte counters. *)
Lemma audit_chunks_effects device head_key chunks : forall acc s,
  let s' := (audit_chunks device head_key acc chunks s).2 in
  content_reads (trace s')
    = content_reads (trace s) ++ chunk_reads device head_key chunks /\
  ratelimit_budgets (trace s')
    = ratelimit_budgets (trace s)
      ++ chunk_budgets (max_bytes_per_second (self s)) chunks /\
  bytes_processed (counters (self s'))
    = bytes_processed (counters (self s)) + streamed_size chunks /\
  total_bytes_processed (counters (self s'))
    = total_bytes_processed (counters (self s)) + streamed_size chunks /\
  idle_counters (counters (self s')) = idle_counters (counters (self s)).
Proof.
  induction chunks as [|c chunks IH]; intros [etag size] s; cbn.
  - rewrite !app_nil_r. repeat split; lia.
  - match goal with
    | |- context [audit_chunks device head_key ?a chunks ?s0] =>
      destruct (IH a s0) as (Hr & Hb & Hp & Ht & Hi)
    end.
    cbn in *. rewrite Hr, Hb, Hp, Ht, Hi.
    unfold content_reads, ratelimit_budgets, streamed_size.
    rewrite !omap_app. cbn. rewrite !app_nil_r, <- !app_assoc. cbn.
    repeat split; lia.
Qed.

Lemma streamed_effects device head_key chunks s :
  let s' := streamed device head_key chunks s in
  content_reads (trace s')
    = content_reads (trace s) ++ chunk_reads device head_key chunks /\
  ratelimit_budgets (trace s')
    = ratelimit_budgets (trace s)
      ++ chunk_budgets (max_bytes_per_second (self s)) chunks /\
  bytes_processed (counters (self s'))
    = bytes_processed (counters (self s)) + streamed_size chunks /\
  total_bytes_processed (counters (self s'))
    = total_bytes_processed (counters (self s)) + streamed_size chunks.
Proof.
  intros s'. subst s'. unfold streamed.
  destruct (audit_chunks_effects device head_key chunks (md5_new, 0)
              (emit (EvOpen device head_key) s).2) as (Hr & Hb & Hp & Ht & _).
  cbn in *. rewrite Hr, Hb, Hp, Ht.
  unfold content_reads, ratelimit_budgets. rewrite !omap_app. cbn.
  by rewrite !app_nil_r.
Qed.

(** A failure caught at the call boundary: logged, answered [False]. *)
Lemma audit_object_raised device location e s s1 :
  _audit_object device location s = (Raise e, s1) ->
  exists s',
    audit_object device location s = (Ok false, s') /\
    store s' = store s1 /\ self s' = self s1 /\
    quarantined (trace s') = quarantined (trace s1) /\
    warnings (trace s') = warnings (trace s1) /\
    content_reads (trace s') = content_reads (trace s1) /\
    ratelimit_budgets (trace s') = ratelimit_budgets (trace s1).
Proof.
  intros Hrun. rewrite audit_object_run, Hrun. eexists. split; [done|]. cbn.
  unfold quarantined, warnings, content_reads, ratelimit_budgets.
  rewrite !omap_app. cbn. by rewrite !app_nil_r.
Qed.

(** The loop body on an object whose audit answers [False]. *)
Lemma audit_location_failed device location s :
  (audit_object device location (assign (stats_incr "found_objects") s).2).1
    = Ok false ->
  let s' := (audit_location device location s).2 in
  stats_get "failures" (counters (self s'))
    = stats_get "failures" (counters (self s)) + 1 /\
  stats_get "success" (counters (self s'))
    = stats_get "success" (counters (self s)).
Proof.
  intros Hfalse.
  destruct (audit_location_stats device location s)
    as (b & s1 & s' & Hrun & Hloc & _ & _ & _ & Hok & Hfail & _).
  rewrite Hrun in Hfalse. cbn in Hfalse. injection Hfalse as ->.
  rewrite Hloc. cbn in *. lia.
Qed.

Lemma _audit_object_fails_early device head_key e s :
  fails_early (store s) device head_key e ->
  exists s1,
    _audit_object device head_key s = (Raise e, s1) /\
    store s1 = store s /\ self s1 = self s /\
    quarantined (trace s1) = quarantined (trace s) /\
    warnings (trace s1) = warnings (trace s) /\
    content_reads (trace s1) = content_reads (trace s) /\
    ratelimit_budgets (trace s1) = ratelimit_budgets (trace s).
Proof.
  intros [Hloc|(df & Hdf & [[Hopen Hne]|[Hopen Hmd]])].
  - rewrite (_audit_object_locate_error _ _ _ _ Hloc). by eexists.
  - rewrite (_audit_object_open_error _ _ _ _ _ Hdf Hopen Hne).
    eexists. split; [done|]. cbn.
    unfold quarantined, warnings, content_reads, ratelimit_budgets.
    rewrite !omap_app. cbn. by rewrite !app_nil_r.
  - rewrite (_audit_object_metadata_error _ _ _ _ _ Hdf Hopen Hmd).
    eexists. split; [done|]. cbn.
    unfold quarantined, warnings, content_reads, ratelimit_budgets.
    rewrite !omap_app. cbn. by rewrite !app_nil_r.
Qed.


(** X2: when the Content-Length of a readable object is missing or is not
    an integer, the whole body is streamed and counted, and then the audit
    fails without any comparison: no warning, no quarantine, a failure of
    the object. *)
Theorem unparsable_length_is_a_failure device head_key df md chunks e s :
  streams (store s) device head_key df md chunks ->
  int_of_header (md !! "Content-Length"%string) = Raise e ->
  (exists s',
     audit_object device head_key s = (Ok false, s') /\
     quarantined (trace s') = quarantined (trace s) /\
     warnings (trace s') = warnings (trace s) /\
     content_reads (trace s')
       = content_reads (trace s) ++ chunk_reads device head_key chunks /\
     bytes_processed (counters (self s'))
       = bytes_processed (counters (self s)) + streamed_size chunks) /\
  (let s' := (audit_location device head_key s).2 in
   stats_get "failures" (counters (self s'))
     = stats_get "failures" (counters (self s)) + 1 /\
   stats_get "success" (counters (self s'))
     = stats_get "success" (counters (self s))).
Proof.
  intros Hstr Hlen.
  assert (forall s0, store s0 = store s ->
            _audit_object device head_key s0
            = (Raise e, streamed device head_key chunks s0)) as Hrun.
  { intros s0 Hs0. rewrite <- Hs0 in Hstr.
    rewrite (_audit_object_streams _ _ _ _ _ _ Hstr). cbn. by rewrite Hlen. }
  split.
  - destruct (audit_object_raised _ _ _ _ _ (Hrun s eq_refl))
      as (s' & Hobj & _ & Hself & Hq & Hw & Hr & _).
    destruct (streamed_frame device head_key chunks s) as (_ & Hq1 & Hw1 & _).
    destruct (streamed_effects device head_key chunks s) as (Hr1 & _ & Hp1 & _).
    exists s'. split; [done|]. rewrite Hq, Hw, Hr, Hself. done.
  - apply audit_location_failed.
    destruct (audit_object_raised _ _ _ _ _
                (Hrun (assign (stats_incr "found_objects") s).2 eq_refl))
      as (s' & -> & _). done.
Qed.


(** ** Bytes, rate limiting and quarantine *)

Lemma reject_effects device head_key df msg s :
  let s' := (reject device head_key df msg s).2 in
  self s' = self s /\
  content_reads (trace s') = content_reads (trace s) /\
  ratelimit_budgets (trace s') = ratelimit_budgets (trace s).
Proof.
  unfold reject, quarantine, log, bind; cbn.
  destruct (df_quarantine (store s) df) as [[[]|e] st']; cbn;
    unfold content_reads, ratelimit_budgets; rewrite !omap_app; cbn;
    by rewrite !app_nil_r.
Qed.

Lemma _audit_object_streams_effects device head_key df md chunks s :
  streams (store s) device head_key df md chunks ->
  let s' := (_audit_object device head_key s).2 in
  content_reads (trace s')
    = content_reads (trace s) ++ chunk_reads device head_key chunks /\
  ratelimit_budgets (trace s')
    = ratelimit_budgets (trace s)
      ++ chunk_budgets (max_bytes_per_second (self s)) chunks /\
  bytes_processed (counters (self s'))
    = bytes_processed (counters (self s)) + streamed_size chunks /\
  total_bytes_processed (counters (self s'))
    = total_bytes_processed (counters (self s)) + streamed_size chunks.
Proof.
  intros Hstr. cbn. rewrite (_audit_object_streams _ _ _ _ _ _ Hstr). cbn.
  destruct (streamed_effects device head_key chunks s) as (Hr & Hb & Hp & Ht).
  set (s1 := streamed device head_key chunks s) in *.
  assert (forall msg,
            let s' := (reject device head_key df msg s1).2 in
            content_reads (trace s')
              = content_reads (trace s) ++ chunk_reads device head_key chunks /\
            ratelimit_budgets (trace s')
              = ratelimit_budgets (trace s)
                ++ chunk_budgets (max_bytes_per_second (self s)) chunks /\
            bytes_processed (counters (self s'))
              = bytes_processed (counters (self s)) + streamed_size chunks /\
            total_bytes_processed (counters (self s'))
              = total_bytes_processed (counters (self s)) + streamed_size chunks)
    as Hrej.
  { intros msg. destruct (reject_effects device head_key df msg s1) as (Hs & Hr' & Hb').
    cbn in *. by rewrite Hs, Hr', Hb'. }
  destruct (int_of_header _) as [expected|e]; [|done].
  destruct (negb (streamed_size chunks =? expected)); [apply Hrej|].
  destruct (negb (bool_decide _)); [apply Hrej|done].
Qed.

(** X4: whatever the verdict on an object that streams, each of its chunks
    is read once and passed once to the rate limiter, with the
    bytes-per-second ceiling and the length of the chunk (an empty chunk
    included), and both byte counters grow by the size of the body. *)
Theorem streamed_bytes_are_counted device head_key df md chunks s :
  streams (store s) device head_key df md chunks ->
  let s' := (audit_object device head_key s).2 in
  content_reads (trace s')
    = content_reads (trace s) ++ chunk_reads device head_key chunks /\
  ratelimit_budgets (trace s')
    = ratelimit_budgets (trace s)
      ++ chunk_budgets (max_bytes_per_second (self s)) chunks /\
  bytes_processed (counters (self s'))
    = bytes_processed (counters (self s)) + streamed_size chunks /\
  total_bytes_processed (counters (self s'))
    = total_bytes_processed (counters (self s)) + streamed_size chunks.
Proof.
  intros Hstr s'. subst s'.
  pose proof (_audit_object_streams_effects _ _ _ _ _ _ Hstr) as Heff.
  rewrite audit_object_run. cbn in Heff.
  destruct (_audit_object device head_key s) as [[b|e] s1]; cbn in *; [done|].
  unfold content_reads, ratelimit_budgets in *. rewrite !omap_app. cbn.
  by rewrite !app_nil_r.
Qed.

(** Every path through [_audit_object]: either nothing is quarantined and
    no warning is logged, or the object is quarantined once behind one
    mismatch warning and the answer is not [True]. *)
Lemma _audit_object_discipline device head_key s :
  let r := (_audit_object device head_key s).1 in
  let s' := (_audit_object device head_key s).2 in
  quarantined (trace s') = quarantined (trace s) /\
  warnings (trace s') = warnings (trace s)
  \/
  r <> Ok true /\
  quarantined (trace s') = quarantined (trace s) ++ [(device, head_key)] /\
  exists msg, mismatch_warning head_key msg /\
              warnings (trace s') = warnings (trace s) ++ [msg].
Proof.
  cbn.
  assert (forall e, fails_early (store s) device head_key e ->
            quarantined (trace (_audit_object device head_key s).2)
              = quarantined (trace s) /\
            warnings (trace (_audit_object device head_key s).2)
              = warnings (trace s)) as Hearly.
  { intros e He. destruct (_audit_object_fails_early _ _ _ _ He)
      as (s1 & -> & _ & _ & ? & ? & _). done. }
  destruct (get_diskfile_from_audit_location (store s) device head_key)
    as [df|e] eqn:Hdf; [|left; apply (Hearly e); by left].
  destruct (df_open (store s) df) as [[]|e] eqn:Hopen.
  2:{ left.
      assert (e = DiskFileNotExist \/ e <> DiskFileNotExist) as [->|Hne]
        by (destruct e; auto).
      - rewrite _audit_object_vanished by (by exists df). cbn.
        unfold quarantined, warnings. rewrite !omap_app. cbn.
        by rewrite !app_nil_r.
      - apply (Hearly e). right. exists df. split; [done|]. by left. }
  destruct (df_get_metadata (store s) df) as [md|e] eqn:Hmd.
  2:{ left. apply (Hearly e). right. exists df. split; [done|]. by right. }
  destruct (df_iter (store s) df) as [chunks [e|]] eqn:Hiter.
  { left. rewrite (_audit_object_read_error _ _ _ _ _ _ _ Hdf Hopen Hmd Hiter). cbn.
    by destruct (streamed_frame device head_key chunks s) as (_ & ? & ? & _). }
  assert (streams (store s) device head_key df md chunks) as Hstr by done.
  destruct (int_of_header (md !! "Content-Length"%string)) as [expected|e] eqn:Hlen.
  2:{ left. rewrite (_audit_object_streams _ _ _ _ _ _ Hstr). cbn. rewrite Hlen.
      by destruct (streamed_frame device head_key chunks s) as (_ & ? & ? & _). }
  destruct (decide (streamed_size chunks = expected
                    /\ md !! "ETag"%string = Some (streamed_etag chunks)))
    as [[Hsize Hetag]|Hbad].
  - left. destruct (_audit_object_intact device head_key s)
      as (s' & -> & _ & ? & ?); [|done].
    exists df, md, chunks. by rewrite Hlen, Hsize.
  - right.
    destruct (_audit_object_mismatch _ _ _ _ _ _ _ Hstr Hlen)
      as (r & s' & Hrun & Hr & Hq & Hw).
    { destruct (decide (streamed_size chunks = expected)); [right|by left].
      intros ?. by apply Hbad. }
    rewrite Hrun. cbn. split; [by destruct Hr as [->|[? ->]]|].
    split; [done|]. eexists. split; [|exact Hw].
    by destruct (decide (streamed_size chunks = expected)).
Qed.

(** X5: one call of [audit_object] quarantines at most once, the object it
    was given; it does so exactly when it logs a size or ETag warning, and
    it then answers [False].  An answer [True] means that nothing was
    quarantined. *)
Theorem quarantine_follows_a_mismatch device head_key s :
  let r := (audit_object device head_key s).1 in
  let s' := (audit_object device head_key s).2 in
  quarantined (trace s') = quarantined (trace s) /\
  warnings (trace s') = warnings (trace s)
  \/
  r = Ok false /\
  quarantined (trace s') = quarantined (trace s) ++ [(device, head_key)] /\
  exists msg, mismatch_warning head_key msg /\
              warnings (trace s') = warnings (trace s) ++ [msg].
Proof.
  cbn. pose proof (_audit_object_discipline device head_key s) as H. cbn in H.
  rewrite audit_object_run.
  destruct (_audit_object device head_key s) as [[b|e] s1]; cbn in *.
  - destruct H as [H|(Hr & H)]; [by left|right].
    split; [|done]. by destruct b.
  - unfold quarantined, warnings in *. rewrite !omap_app. cbn.
    rewrite !app_nil_r. destruct H as [H|(_ & H)]; [by left|by right].
Qed.

#[local] Instance accounts_preorder : PreOrder accounts.
Proof.
  split; unfold accounts; [intros s | intros s1 s2 s3 H1 H2]; lia.
Qed.

Lemma audit_location_accounts device location :
  stable accounts (audit_location device location).
Proof.
  intros s.
  destruct (audit_location_stats device location s)
    as (b & s1 & s' & Hrun & Hloc & _ & Htr & _ & _ & Hfail & _).
  pose proof (quarantine_discipline_helper := _audit_object_discipline device location
                (assign (stats_incr "found_objects") s).2).
  cbn in quarantine_discipline_helper.
  rewrite audit_object_run in Hrun.
  rewrite Hloc. unfold accounts, unaccounted. cbn [snd]. rewrite Htr.
  cbn in Hfail. rewrite Hfail.
  destruct (_audit_object device location _) as [[b'|e] s1'];
    cbn in *; injection Hrun as <- <-; unfold quarantined in *.
  - destruct quarantine_discipline_helper as [[-> _]|(Hr & -> & _)].
    + destruct b'; lia.
    + destruct b'; [done|]. rewrite length_app. cbn. lia.
  - cbn. rewrite omap_app. cbn. rewrite app_nil_r.
    destruct quarantine_discipline_helper as [[-> _]|(Hr & -> & _)];
      rewrite ?length_app; cbn; lia.
Qed.

#[local] Hint Resolve audit_location_accounts : stable.

Ltac leaf_accounts :=
  intro; unfold accounts, unaccounted, quarantined; cbn;
  rewrite ?omap_app; cbn; rewrite ?app_nil_r, ?stats_get_incr;
  repeat destruct (decide _); try done; lia.

Lemma after_reset_accounts devices_arg : stable accounts (after_reset devices_arg).
Proof. stable_walk; leaf_accounts. Qed.

(** X6: at the end of a sweep, [failures] is at least the number of
    quarantine calls the sweep made: every quarantined object has been
    counted as a failure. *)
Theorem quarantines_are_failures devices_arg s :
  let s' := (run_once devices_arg s).2 in
  Z.of_nat (length (quarantined (trace s')))
    - Z.of_nat (length (quarantined (trace s)))
  <= stats_get "failures" (counters (self s')).
Proof.
  cbn. rewrite run_once_split.
  pose proof (after_reset_accounts devices_arg (reset_stats s).2) as H.
  unfold accounts in H.
  assert (unaccounted (reset_stats s).2
          = Z.of_nat (length (quarantined (trace s)))) as H0.
  { unfold unaccounted, stats_get, quarantined. cbn. rewrite lookup_empty.
    cbn. lia. }
  rewrite H0 in H. unfold unaccounted in H. lia.
Qed.

#[local] Instance bytes_in_step_preorder : PreOrder bytes_in_step.
Proof.
  split; unfold bytes_in_step; [intros s | intros s1 s2 s3 H1 H2]; lia.
Qed.

Lemma audit_chunk_bytes_in_step device head_key acc chunk :
  stable bytes_in_step (audit_chunk device head_key acc chunk).
Proof. intros s. destruct acc. unfold bytes_in_step. cbn. lia. Qed.

#[local] Hint Resolve audit_chunk_bytes_in_step : stable.

Ltac leaf_bytes := intro; unfold bytes_in_step; cbn; lia.

Lemma after_reset_bytes_in_step devices_arg :
  stable bytes_in_step (after_reset devices_arg).
Proof. stable_walk; leaf_bytes. Qed.

Lemma after_reset_idle devices_arg :
  stable (same_on (fun s => idle_counters (counters (self s))))
         (after_reset devices_arg).
Proof. stable_walk; leaf. Qed.

(** X7: [total_files_processed], [passes], [quarantines] and [errors] are
    zero at the end of every sweep, also of one that quarantined objects or
    met errors: nothing but [reset_stats] assigns them.  The two byte
    counters end equal. *)
Theorem idle_counters_stay_zero devices_arg s :
  let c := counters (self (run_once devices_arg s).2) in
  total_files_processed c = 0 /\ passes c = 0 /\
  quarantines c = 0 /\ errors c = 0 /\
  bytes_processed c = total_bytes_processed c.
Proof.
  cbn. rewrite run_once_split.
  pose proof (after_reset_idle devices_arg (reset_stats s).2) as Hidle.
  pose proof (after_reset_bytes_in_step devices_arg (reset_stats s).2) as Hbytes.
  unfold same_on, idle_counters in Hidle. unfold bytes_in_step in Hbytes.
  set (c := counters (self (after_reset devices_arg (reset_stats s).2).2)) in *.
  cbn in Hidle, Hbytes. injection Hidle as H1 H2 H3 H4.
  repeat split; lia.
Qed.

(** ** Devices that fail, sweeps that fail *)

Lemma audit_locations_found device locations : forall s,
  stats_get "found_objects"
    (counters (self (for_each (audit_location device) locations s).2))
  = stats_get "found_objects" (counters (self s)) + Z.of_nat (length locations).
Proof.
  induction locations as [|l locations IH]; intros s; cbn [for_each length].
  - cbn. lia.
  - destruct (audit_location_stats device l s)
      as (? & ? & s1 & _ & Hrun & _ & _ & Hfound & _).
    unfold bind. rewrite Hrun, IH. cbn in Hfound. rewrite Hfound. lia.
Qed.

Lemma device_verdict_effects device r s :
  let s' := (device_verdict device r s).2 in
  store s' = store s /\
  stats_get "found_objects" (counters (self s'))
    = stats_get "found_objects" (counters (self s)) /\
  connects (trace s') = connects (trace s) /\
  opened (trace s') = opened (trace s) /\
  warnings (trace s')
    = warnings (trace s)
      ++ match r with Raise e => device_warning device e | Ok _ => [] end.
Proof.
  unfold device_verdict, device_warning.
  destruct r as [|[]]; cbn; unfold connects, opened, warnings;
    rewrite ?omap_app; cbn; rewrite ?app_nil_r, stats_get_incr;
    destruct (decide _); done.
Qed.


Lemma _audit_device_unreachable device e s :
  unreachable (store s) device e ->
  exists s1,
    _audit_device device s = (Raise e, s1) /\
    store s1 = store s /\ self s1 = self s /\
    opened (trace s1) = opened (trace s) /\
    warnings (trace s1) = warnings (trace s).
Proof.
  intros Hun. pose proof (_audit_device_run device s) as Hrun.
  rewrite _find_objects_run in Hrun.
  destruct Hun as [Hhp|(hp & Hhp & Hconn)].
  - rewrite Hhp in Hrun. rewrite Hrun. by eexists.
  - rewrite Hhp, Hconn in Hrun. cbn in Hrun. rewrite Hrun.
    eexists. split; [done|]. cbn. unfold opened, warnings.
    rewrite !omap_app. cbn. by rewrite !app_nil_r.
Qed.


Lemma device_names_raises devs e :
  device_names devs = Raise e -> e = KeyError "device".
Proof.
  induction devs as [|[d|] devs IH]; cbn; [done| |done].
  destruct (decide (d = ∅)); [done|].
  destruct (d !! "device"%string); [|by intros [= <-]].
  destruct (device_names devs); [done|]. intros [= <-]. by apply IH.
Qed.

Lemma run_once_outcome devices_arg s :
  match devices_for devices_arg (swift_dir (self s)) with
  | Ok _ => (run_once devices_arg s).1 = Ok tt
  | Raise e => run_once devices_arg s = (Raise e, (reset_stats s).2)
  end.
Proof.
  destruct (devices_for devices_arg (swift_dir (self s))) as [devices|e] eqn:Hdev.
  - apply (run_once_devices devices_arg devices). by rewrite sweep_devices_run.
  - rewrite run_once_split. unfold after_reset, bind.
    rewrite sweep_devices_run. cbn. by rewrite Hdev.
Qed.


(** X11: a sweep that returns has logged, first, the devices it is about
    to audit and, last, the same devices with the statistics that the
    auditor holds when [run_once] returns. *)
Theorem sweep_log_matches_stats devices_arg s :
  let s' := (run_once devices_arg s).2 in
  (run_once devices_arg s).1 = Ok tt ->
  exists devices start finish mid,
    (sweep_devices devices_arg s).1 = Ok devices /\
    trace s' =
      trace s ++ EvLog Info (LogStartingSweep devices) :: EvTime start :: mid ++
      [EvTime finish;
       EvLog Info (LogFinishedSweep devices (fsub finish start)
                     (stats (counters (self s'))))].
Proof.
  cbn. rewrite sweep_devices_run. cbn.
  pose proof (run_once_outcome devices_arg s) as Hout.
  destruct (devices_for devices_arg (swift_dir (self s))) as [devices|e] eqn:Hdev;
    [|by rewrite Hout].
  intros _. rewrite run_once_split. unfold after_reset, bind.
  rewrite sweep_devices_run. cbn. rewrite Hdev. cbn.
  match goal with
  | |- context [for_each audit_device devices ?s0] =>
    destruct (for_each_audit_device_run devices s0) as (s1 & Hrun & _);
    pose proof (for_each_audit_device_extends devices s0) as [mid Hmid]
  end.
  rewrite Hrun in *. cbn in *.
  eexists devices, _, _, mid. split; [done|].
  rewrite Hmid, <- !app_assoc. cbn. done.
Qed.

(** ** The loop as a whole *)

Lemma run_once_recons devices_arg :
  stable (same_on (fun s => recons (trace s))) (run_once devices_arg).
Proof. stable_walk; intro; unfold same_on, recons; cbn;
         rewrite ?omap_app; cbn; rewrite ?app_nil_r; reflexivity. Qed.

Lemma run_once_sleeps devices_arg :
  stable (same_on (fun s => sleeps (trace s))) (run_once devices_arg).
Proof. stable_walk; intro; unfold same_on, sleeps; cbn;
         rewrite ?omap_app; cbn; rewrite ?app_nil_r; reflexivity. Qed.

(** One turn of the loop: it raises exactly what its sweep raises, and then
    has published nothing and not slept; otherwise it has published once,
    slept at most once, and reset the counters. *)
Lemma run_forever_iteration_outcome devices_arg s :
  let r := (run_forever_iteration devices_arg s).1 in
  let s' := (run_forever_iteration devices_arg s).2 in
  interval (self s') = interval (self s) /\
  swift_dir (self s') = swift_dir (self s) /\
  match devices_for devices_arg (swift_dir (self s)) with
  | Raise e =>
    r = Raise e /\
    recons (trace s') = recons (trace s) /\
    sleeps (trace s') = sleeps (trace s)
  | Ok _ =>
    r = Ok tt /\
    (exists elapsed,
       recons (trace s')
         = recons (trace s) ++ [("object_audit_sweep"%string, elapsed)]) /\
    (length (sleeps (trace s)) <= length (sleeps (trace s'))
       <= length (sleeps (trace s)) + 1)%nat /\
    counters (self s') = zero_counters
  end.
Proof.
  unfold run_forever_iteration, now, log, dump_recon_cache, sleep,
    reset_stats, bind; cbn.
  match goal with |- context [run_once devices_arg ?s0] => set (s1 := s0) end.
  pose proof (run_once_recons devices_arg s1) as Hrec.
  pose proof (run_once_sleeps devices_arg s1) as Hsl.
  pose proof (run_once_configuration devices_arg s1) as Hconf.
  pose proof (run_once_outcome devices_arg s1) as Hout.
  unfold same_on, configuration in *.
  change (swift_dir (self s1)) with (swift_dir (self s)) in *.
  destruct (devices_for devices_arg (swift_dir (self s))) as [devices|e].
  - destruct (run_once devices_arg s1) as [r s2]. cbn in Hout. subst r. cbn in *.
    injection Hconf as Hdir _ _ Hiv.
    unfold recons, sleeps in *. subst s1. cbn in *.
    rewrite !omap_app in Hrec. rewrite !omap_app in Hsl. cbn in Hrec, Hsl.
    rewrite !app_nil_r in Hrec. rewrite !app_nil_r in Hsl.
    destruct (flt _ _); cbn; rewrite !omap_app; cbn;
      rewrite ?app_nil_r, ?length_app, Hrec, Hsl; cbn;
      (split; [done|]); (split; [done|]); (split; [done|]);
      (split; [by eexists|]); (split; [lia|done]).
  - rewrite Hout in *. cbn in *. unfold recons, sleeps. subst s1. cbn.
    rewrite !omap_app. cbn. by rewrite !app_nil_r.
Qed.

#[local] Arguments run_forever_iteration : simpl never.

Lemma iterations_outcome n devices_arg : forall s,
  let r := (iterations n devices_arg s).1 in
  let s' := (iterations n devices_arg s).2 in
  match devices_for devices_arg (swift_dir (self s)) with
  | Raise e =>
    (0 < n)%nat ->
    r = Raise e /\
    recons (trace s') = recons (trace s) /\
    sleeps (trace s') = sleeps (trace s)
  | Ok _ =>
    r = Ok tt /\
    length (recons (trace s')) = (length (recons (trace s)) + n)%nat /\
    (length (sleeps (trace s)) <= length (sleeps (trace s'))
       <= length (sleeps (trace s)) + n)%nat
  end.
Proof.
  induction n as [|n IH]; intros s.
  - cbn. destruct (devices_for _ _); [|lia]. repeat split; lia.
  - intros r s'. subst r s'.
    change (iterations (S n) devices_arg s)
      with (bind (run_forever_iteration devices_arg)
                 (fun _ => iterations n devices_arg) s).
    unfold bind.
    pose proof (run_forever_iteration_outcome devices_arg s) as H.
    destruct (run_forever_iteration devices_arg s) as [r1 s1].
    cbn [fst snd] in H. destruct H as (_ & Hdir & Hit).
    specialize (IH s1). cbn zeta in IH. rewrite Hdir in IH.
    destruct (devices_for devices_arg (swift_dir (self s))) as [devices|e].
    + destruct Hit as (-> & [elapsed Hrec] & Hsl & _).
      destruct IH as (Hr & Hrec' & Hsl').
      split; [done|]. rewrite Hrec', Hrec, length_app. cbn. split; lia.
    + intros _. by destruct Hit as (-> & ? & ?).
Qed.

Lemma run_forever_split n devices_arg s :
  run_forever n devices_arg s = iterations n devices_arg (after_jitter s).
Proof. reflexivity. Qed.

Lemma after_jitter_effects s :
  self (after_jitter s) = self s /\
  recons (trace (after_jitter s)) = recons (trace s) /\
  sleeps (trace (after_jitter s))
    = sleeps (trace s)
      ++ [fmul (random_random (env s)).1 (float_of_int (interval (self s)))].
Proof.
  unfold after_jitter, random, sleep, bind, recons, sleeps; cbn.
  rewrite !omap_app. cbn. by rewrite !app_nil_r.
Qed.

Lemma iterations_sleeps_extend n devices_arg s :
  exists later,
    sleeps (trace (iterations n devices_arg s).2) = sleeps (trace s) ++ later.
Proof.
  assert (extends s (iterations n devices_arg s).2) as [k Hk].
  { apply stable_iterations; [apply _|]. stable_walk; leaf_extends. }
  rewrite Hk. unfold sleeps. rewrite omap_app. by eexists.
Qed.


(** X13: when collecting the devices raises, the loop ends in its first
    turn with that exception: after the initial sleep it publishes nothing
    and never sleeps again. *)
Theorem run_forever_stops_on_bad_ring n devices_arg e s :
  devices_for devices_arg (swift_dir (self s)) = Raise e ->
  let s' := (run_forever (S n) devices_arg s).2 in
  let jitter :=
    fmul (random_random (env s)).1 (float_of_int (interval (self s))) in
  (run_forever (S n) devices_arg s).1 = Raise e /\
  recons (trace s') = recons (trace s) /\
  sleeps (trace s') = sleeps (trace s) ++ [jitter].
Proof.
  intros Hdev s' jitter. subst s' jitter. rewrite run_forever_split.
  destruct (after_jitter_effects s) as (Hself & Hrec & Hsl).
  pose proof (iterations_outcome (S n) devices_arg (after_jitter s)) as Hit.
  cbn zeta in Hit. rewrite Hself, Hdev in Hit.
  destruct Hit as (Hr & Hrec' & Hsl'); [lia|].
  by rewrite Hrec', Hsl', Hrec, Hsl.
Qed.

(** ** The command line *)

(** X14: after the first statement of [main], the program name and every
    argument are still there, in their order; if there was an argument, the
    first one is now an existing path or the default configuration path;
    with no argument nothing is inserted, the default path included. *)
Theorem main_argv_spec path_exists argv :
  main_argv path_exists argv !! 0%nat = argv !! 0%nat /\
  drop 1 argv `suffix_of` main_argv path_exists argv /\
  (forall arg, argv !! 1%nat = Some arg ->
     exists conf,
       main_argv path_exists argv !! 1%nat = Some conf /\
       (path_exists conf = true /\ main_argv path_exists argv = argv
        \/
        conf = "/etc/swift/kinetic.conf"%string /\ path_exists arg = false /\
        drop 2 (main_argv path_exists argv) = drop 1 argv)) /\
  ((length argv <= 1)%nat -> main_argv path_exists argv = argv).
Proof.
  unfold main_argv. destruct argv as [|prog [|arg args]]; cbn.
  - split; [done|]. split; [done|]. split; [by intros ? [=]|done].
  - split; [done|]. split; [by exists [prog]|]. split; [by intros ? [=]|done].
  - destruct (path_exists arg) eqn:Hex; cbn.
    + split; [done|]. split; [by exists [prog]|]. split; [|lia].
      intros ? [= <-]. exists arg. split; [done|]. by left.
    + split; [done|].
      split; [by exists [prog; "/etc/swift/kinetic.conf"%string]|].
      split; [|lia].
      intros ? [= <-]. eexists. split; [done|]. by right.
Qed.

(** ** Opening, writing, rate limiting *)

Lemma bind_ok {A B} (m : M A) (k : A -> M B) s a s1 :
  m s = (Ok a, s1) -> bind m k s = k a s1.
Proof. intros H. unfold bind. by rewrite H. Qed.

Ltac leaf_opened :=
  intro; unfold same_on, opened; cbn; rewrite ?omap_app; cbn;
  rewrite ?app_nil_r; reflexivity.

(** [_audit_object] opens the object it was given, once, if it can locate
    it, and opens nothing else. *)
Lemma audit_object_opened device head_key s :
  opened (trace (audit_object device head_key s).2)
  = opened (trace s)
    ++ (if is_Ok (get_diskfile_from_audit_location (store s) device head_key)
        then [(device, head_key)] else []).
Proof.
  assert (opened (trace (_audit_object device head_key s).2)
          = opened (trace s)
            ++ (if is_Ok (get_diskfile_from_audit_location (store s) device head_key)
                then [(device, head_key)] else [])) as Hinner.
  { unfold _audit_object.
    rewrite (bind_ok get_store _ s (store s) s eq_refl).
    destruct (get_diskfile_from_audit_location (store s) device head_key)
      as [df|e] eqn:Hdf; [|by rewrite app_nil_r].
    rewrite (bind_ok (lift (Ok df)) _ s df s eq_refl).
    rewrite (bind_ok (emit (EvOpen device head_key)) _ s tt _ eq_refl).
    match goal with
    | |- opened (trace (?m ?s0).2) = _ =>
      assert (stable (same_on (fun s => opened (trace s))) m) as Hrest
        by (stable_walk; leaf_opened);
      rewrite (Hrest s0)
    end.
    cbn. unfold opened. rewrite omap_app. done. }
  rewrite audit_object_run.
  destruct (_audit_object device head_key s) as [[b|e] s1]; cbn in *; [done|].
  unfold opened in *. rewrite omap_app, Hinner. cbn. by rewrite app_nil_r.
Qed.

Lemma audit_locations_opened device locations : forall s,
  (forall st location,
     location ∈ locations ->
     is_Ok (get_diskfile_from_audit_location st device location) = true) ->
  opened (trace (for_each (audit_location device) locations s).2)
  = opened (trace s) ++ map (pair device) locations.
Proof.
  induction locations as [|l locations IH]; intros s Hloc; cbn [for_each map].
  - cbn. by rewrite app_nil_r.
  - destruct (audit_location_stats device l s)
      as (b & s1 & s' & Hrun & Hstep & _ & Htr & _).
    unfold bind. rewrite Hstep, IH by (intros; apply Hloc; by right).
    rewrite Htr.
    pose proof (audit_object_opened device l
                  (assign (stats_incr "found_objects") s).2) as Ho.
    rewrite Hrun, Hloc in Ho by (by left). cbn in Ho.
    rewrite Ho, <- app_assoc. done.
Qed.

(** X15: on a device whose objects can all be located, every key the
    iterator yields is opened exactly once, in the order in which it was
    yielded, also when the iterator ends by raising. *)
Theorem keys_are_opened_in_order device hp conn locations stop s :
  get_device_host_and_port device = Ok hp ->
  get_connection (store s) hp = Ok conn ->
  iterKeyRange (store s) conn "objects" "objects/" = (locations, stop) ->
  (forall st location,
     location ∈ locations ->
     is_Ok (get_diskfile_from_audit_location st device location) = true) ->
  opened (trace (audit_device device s).2)
  = opened (trace s) ++ map (pair device) locations.
Proof.
  intros Hhp Hconn Hiter Hloc.
  pose proof (_audit_device_run device s) as Hrun.
  rewrite _find_objects_run, Hhp, Hconn, Hiter in Hrun. cbn in Hrun.
  destruct Hrun as (s1 & Hloop & Hdev).
  rewrite audit_device_run, Hdev. cbn [fst snd].
  destruct (device_verdict_effects device
              (match stop with Some e => Raise e | None => Ok tt end) s1)
    as (_ & _ & _ & -> & _).
  pose proof (audit_locations_opened device locations
                (emit (EvConnect hp) s).2 Hloc) as Ho.
  cbn in Ho, Hloop. rewrite Hloop in Ho. cbn in Ho. rewrite Ho.
  unfold opened. rewrite omap_app. cbn. by rewrite app_nil_r.
Qed.

#[local] Instance writes_by_quarantine_preorder : PreOrder writes_by_quarantine.
Proof.
  split.
  - intros s. by split.
  - intros s1 s2 s3 [P1 E1] [P2 E2]. split; [by etrans|].
    intros Heq.
    assert (quarantined (trace s2) = quarantined (trace s1)) as H21.
    { destruct P1 as [k1 Hk1], P2 as [k2 Hk2].
      rewrite Hk2, Hk1, <- app_assoc in Heq.
      rewrite <- (app_nil_r (quarantined (trace s1))) in Heq at 2.
      apply app_inv_head in Heq. apply app_eq_nil in Heq as [-> _].
      by rewrite Hk1, app_nil_r. }
    rewrite E2 by congruence. by apply E1.
Qed.

Lemma quarantine_writes device head_key df :
  stable writes_by_quarantine (quarantine device head_key df).
Proof.
  intros s. unfold quarantine, bind; cbn.
  assert (forall (l : list (string * string)) x, l ++ [x] <> l) as Hne.
  { intros l x H. apply (f_equal length) in H. rewrite length_app in H.
    cbn in H. lia. }
  destruct (df_quarantine (store s) df) as [[[]|e] st']; cbn; split;
    unfold quarantined; cbn; rewrite omap_app; cbn;
    solve [ by apply prefix_app_r | intros H; by apply Hne in H ].
Qed.

#[local] Hint Resolve quarantine_writes : stable.

Ltac leaf_writes :=
  intro; unfold writes_by_quarantine, quarantined; cbn;
  rewrite ?omap_app; cbn; rewrite ?app_nil_r; done.

Lemma run_once_writes devices_arg :
  stable writes_by_quarantine (run_once devices_arg).
Proof. stable_walk; leaf_writes. Qed.


#[local] Instance starts_rate_limit_preorder : PreOrder starts_rate_limit.
Proof.
  split.
  - intros s. exists []. rewrite app_nil_r. by repeat split.
  - intros s1 s2 s3 (tr1 & T1 & F1 & E1) (tr2 & T2 & F2 & E2).
    exists (tr1 ++ tr2). rewrite T2, T1, app_assoc. split; [done|].
    unfold first_running_time, ratelimit_calls in *. rewrite omap_app.
    destruct (omap _ tr1) as [|[[t r] n] calls] eqn:Hcalls; cbn.
    + rewrite E1 in F2, E2 by done. split; [done|]. intros H.
      rewrite E2 by done. done.
    + split; [done|]. done.
Qed.

Lemma audit_chunk_starts_rate_limit device head_key acc chunk :
  stable starts_rate_limit (audit_chunk device head_key acc chunk).
Proof.
  intros s. destruct acc as [etag size]. cbn.
  eexists [_; _]. rewrite <- app_assoc. split; [done|].
  unfold first_running_time, ratelimit_calls. cbn. by split.
Qed.

#[local] Hint Resolve audit_chunk_starts_rate_limit : stable.

Ltac leaf_rate :=
  intro; cbn;
  first [ exists []; rewrite app_nil_r; by repeat split
        | eexists [_]; split; [done|]; by split ].

Lemma after_reset_starts_rate_limit devices_arg :
  stable starts_rate_limit (after_reset devices_arg).
Proof. stable_walk; leaf_rate. Qed.

(** X17: the rate limiter starts afresh in each sweep: the first
    rate-limiter call that a sweep makes is given the running time 0,
    whatever the running time was when the sweep began. *)
Theorem rate_limit_restarts_each_sweep devices_arg s :
  exists tr,
    trace (run_once devices_arg s).2 = trace s ++ tr /\
    first_running_time (float_of_int 0) tr.
Proof.
  rewrite run_once_split.
  destruct (after_reset_starts_rate_limit devices_arg (reset_stats s).2)
    as (tr & Htr & Hfirst & _).
  by exists tr.
Qed.

(** ** Construction *)


End Properties.

(** * The theorems on explicit inputs *)

Section Instances.
#[local] Existing Instance Toy.platform.
#[local] Existing Instance Toy.backend.
Open Scope string_scope.

Lemma verify_matching_object_witness :
  let s := Toy.start Toy.sound_store in
  let o := Toy.object ["hel"; "lo"] "5" "hello" in
  streams (store s) "sda" "objects/a" ("sda", "objects/a")
          (Toy.headers o) (Toy.body o) /\
  exists s',
    audit_object "sda" "objects/a" s = (Ok true, s') /\
    quarantined (trace s') = quarantined (trace s) /\
    store s' = store s.
Proof.
  intros s o.
  assert (streams (store s) "sda" "objects/a" ("sda", "objects/a")
                  (Toy.headers o) (Toy.body o)) as Hstr.
  { repeat split; vm_compute; reflexivity. }
  split; [exact Hstr|].
  apply (verify_matching_object "sda" "objects/a" _ _ _ s Hstr);
    vm_compute; reflexivity.
Defined.

Lemma verify_mismatching_object_witness :
  let s := Toy.start Toy.damaged_store in
  let o := Toy.object ["wor"] "5" "world" in
  streams (store s) "sda" "objects/b" ("sda", "objects/b")
          (Toy.headers o) (Toy.body o) /\
  streamed_size (Toy.body o) <> 5 /\
  exists s',
    audit_object "sda" "objects/b" s = (Ok false, s') /\
    quarantined (trace s') = [("sda", "objects/b")] /\
    warnings (trace s') = [LogSizeMismatch "objects/b" 3 (Some "5")].
Proof.
  intros s o.
  assert (streams (store s) "sda" "objects/b" ("sda", "objects/b")
                  (Toy.headers o) (Toy.body o)) as Hstr.
  { repeat split; vm_compute; reflexivity. }
  assert (streamed_size (Toy.body o) <> 5) as Hsize.
  { vm_compute. discriminate. }
  split; [exact Hstr|]. split; [exact Hsize|].
  apply (verify_mismatching_object "sda" "objects/b" _ _ _ 5 s Hstr);
    [vm_compute; reflexivity | left; exact Hsize].
Defined.

Lemma verify_vanished_object_witness :
  let s := Toy.start Toy.sound_store in
  df_open (store s) ("sda", "objects/ghost") = Raise DiskFileNotExist /\
  exists s',
    audit_object "sda" "objects/ghost" s = (Ok true, s') /\
    quarantined (trace s') = quarantined (trace s) /\
    content_reads (trace s') = content_reads (trace s) /\
    ratelimit_calls (trace s') = ratelimit_calls (trace s) /\
    counters (self s') = counters (self s).
Proof.
  intros s.
  assert (df_open (store s) ("sda", "objects/ghost") = Raise DiskFileNotExist) as Hopen.
  { vm_compute. reflexivity. }
  split; [exact Hopen|].
  refine (proj1 (verify_vanished_object "sda" "objects/ghost" _ s _ Hopen)).
  reflexivity.
Defined.

(** As C4 is worded, a device listed twice would be audited once; the code
    audits it twice. *)
Lemma override_list_keeps_duplicates :
  let s := Toy.start Toy.sound_store in
  let s' := (run_once (Some "sda,sda") s).2 in
  (sweep_devices (Some "sda,sda") s).1 = Ok ["sda"; "sda"] /\
  ~ NoDup ["sda"; "sda"] /\
  elements (list_to_set ["sda"; "sda"] : gset string) = ["sda"] /\
  connects (trace s') = ["sda"; "sda"] /\
  stats_get "device.success" (counters (self s')) = 2.
Proof.
  cbv zeta. split; [vm_compute; reflexivity|]. split.
  - intros H. apply NoDup_cons in H as [H _]. apply H. by left.
  - repeat split; vm_compute; reflexivity.
Qed.

Lemma sweep_device_list_witness :
  let s := Toy.start Toy.sound_store in
  list_from_csv (Some "sdb, sda,sdb") <> [] /\
  sweep_devices (Some "sdb, sda,sdb") s = (Ok ["sdb"; "sda"; "sdb"], s) /\
  list_from_csv None = [] /\
  exists devices,
    sweep_devices None s = (Ok devices, s) /\
    NoDup devices /\
    forall name,
      name ∈ devices <->
      exists policy d,
        policy ∈ POLICIES /\
        d ∈ get_object_ring_devs policy (swift_dir (self s)) /\
        names_device d name.
Proof.
  intros s.
  assert (list_from_csv (Some "sdb, sda,sdb") <> []) as Hne.
  { vm_compute. discriminate. }
  split; [exact Hne|]. split.
  - exact (proj1 (sweep_device_list (Some "sdb, sda,sdb") s) Hne).
  - split; [reflexivity|].
    apply (proj1 (proj2 (sweep_device_list None s)) eq_refl).
    intros policy dict Hp Hd Hdict.
    assert (dict = {[ "device" := "sda" ]} \/ dict = {[ "device" := "sdb" ]}
            \/ dict = ∅) as Hcases.
    { apply list_elem_of_In in Hp. cbn in Hp.
      destruct Hp as [ <- | [ <- | [] ] ]; apply list_elem_of_In in Hd; cbn in Hd;
        intuition congruence. }
    destruct Hcases as [ -> | [ -> | -> ] ]; [by eexists..|done].
Defined.


Lemma sweep_pacing_witness :
  let s := Toy.start Toy.sound_store in
  let s' := (run_forever_iteration None s).2 in
  run_forever_iteration None s = (Ok tt, s') /\
  exists finish sweep,
    let begin := (time_time (env s)).1 in
    let elapsed := fsub finish begin in
    let pause := float_of_int (interval (self s)) in
    trace s' =
      (trace s ++ [EvTime begin; EvLog Info LogBeginSweep] ++ sweep ++
       [EvTime finish; EvLog Info (LogSweepCompleted elapsed);
        EvRecon "object_audit_sweep" elapsed] ++
       (if flt elapsed pause then [EvSleep (fsub pause elapsed)] else []))%list /\
    List.filter is_pacing sweep = [] /\
    interval (self s') = interval (self s).
Proof.
  intros s s'.
  assert (run_forever_iteration None s = (Ok tt, s')) as Hrun.
  { assert ((run_forever_iteration None s).1 = Ok tt) as Hok
      by (vm_compute; reflexivity).
    subst s'. destruct (run_forever_iteration None s) as [r s']. cbn in *.
    by rewrite Hok. }
  split; [exact Hrun|].
  exact (proj2 sweep_pacing None s s' Hrun).
Defined.

Lemma files_per_second_unused_witness :
  let conf1 : gmap string string := {[ "files_per_second" := "5" ]} in
  let conf2 : gmap string string := ∅ in
  let a1 := {| swift_dir := "/etc/swift"; max_files_per_second := 5;
               max_bytes_per_second := 10000000; interval := 30;
               counters := zero_counters |} in
  __init__ conf1 = Ok a1 /\ __init__ conf2 = Ok Toy.auditor /\
  let r1 := run_once None (boot a1 Toy.damaged_store 0) in
  let r2 := run_once None (boot Toy.auditor Toy.damaged_store 0) in
  r1.1 = r2.1 /\
  but_files_per_second r1.2 = but_files_per_second r2.2 /\
  Forall (within_budget (max_bytes_per_second a1)) (trace r1.2).
Proof.
  intros conf1 conf2 a1.
  assert (__init__ conf1 = Ok a1) as H1 by (vm_compute; reflexivity).
  assert (__init__ conf2 = Ok Toy.auditor) as H2 by (vm_compute; reflexivity).
  split; [exact H1|]. split; [exact H2|].
  refine (proj1 (files_per_second_unused conf1 conf2 a1 Toy.auditor
                   Toy.damaged_store 0 None 1 _ H1 H2)).
  vm_compute. reflexivity.
Defined.

Lemma consecutive_sweeps_witness :
  let s := Toy.start Toy.sound_store in
  let s1 := (run_once (Some "sda") s).2 in
  let s2 := (run_once (Some "sda") s1).2 in
  uncorrupted (store s) ["sda"] /\
  stats_get "success" (counters (self s1))
    = stats_get "success" (counters (self s2)) /\
  quarantined (trace s1) = quarantined (trace s) /\
  quarantined (trace s2) = quarantined (trace s1) /\
  store s1 = store s /\ store s2 = store s1.
Proof.
  intros s s1 s2.
  assert (uncorrupted (store s) ["sda"]) as Hsound.
  { intros device head_key Hd Hk. left.
    apply list_elem_of_In in Hd. destruct Hd as [ <- | [] ].
    apply list_elem_of_In in Hk. vm_compute in Hk. destruct Hk as [ <- | [] ].
    exists ("sda", "objects/a"),
      (Toy.headers (Toy.object ["hel"; "lo"] "5" "hello")),
      (Toy.body (Toy.object ["hel"; "lo"] "5" "hello")).
    repeat split; vm_compute; reflexivity. }
  split; [exact Hsound|].
  apply (consecutive_sweeps (Some "sda") s).
  intros devices Hdev. vm_compute in Hdev. injection Hdev as <-. exact Hsound.
Defined.


Lemma streamed_bytes_are_counted_witness :
  let s := Toy.start Toy.damaged_store in
  let o := Toy.object ["wor"] "5" "world" in
  let s' := (audit_object "sda" "objects/b" s).2 in
  streams (store s) "sda" "objects/b" ("sda", "objects/b")
          (Toy.headers o) (Toy.body o) /\
  content_reads (trace s') = [("sda", "objects/b", 3)] /\
  ratelimit_budgets (trace s') = [(10000000, 3)] /\
  bytes_processed (counters (self s')) = 3 /\
  total_bytes_processed (counters (self s')) = 3.
Proof.
  intros s o s'.
  assert (streams (store s) "sda" "objects/b" ("sda", "objects/b")
                  (Toy.headers o) (Toy.body o)) as Hstr.
  { repeat split; vm_compute; reflexivity. }
  split; [exact Hstr|].
  exact (streamed_bytes_are_counted "sda" "objects/b" _ _ _ s Hstr).
Defined.



Lemma sweep_log_matches_stats_witness :
  let s := Toy.start Toy.damaged_store in
  let s' := (run_once None s).2 in
  (run_once None s).1 = Ok tt /\
  exists devices start finish mid,
    (sweep_devices None s).1 = Ok devices /\
    trace s' =
      (trace s ++ EvLog Info (LogStartingSweep devices) :: EvTime start :: mid ++
       [EvTime finish;
        EvLog Info (LogFinishedSweep devices (fsub finish start)
                      (stats (counters (self s'))))])%list.
Proof.
  intros s s'.
  assert ((run_once None s).1 = Ok tt) as Hok by (vm_compute; reflexivity).
  split; [exact Hok|].
  exact (sweep_log_matches_stats None s Hok).
Defined.


Lemma main_argv_spec_witness :
  let argv := ["kinetic-swift-auditor"; "-d"; "sda"] in
  let argv' := main_argv (fun _ => false) argv in
  argv !! 1%nat = Some "-d" /\
  exists conf,
    argv' !! 1%nat = Some conf /\
    ((fun _ : string => false) conf = true /\ argv' = argv
     \/
     conf = "/etc/swift/kinetic.conf" /\ (fun _ : string => false) "-d" = false /\
     drop 2 argv' = drop 1 argv).
Proof.
  intros argv argv'.
  assert (argv !! 1%nat = Some "-d") as H1 by reflexivity.
  split; [exact H1|].
  exact (proj1 (proj2 (proj2 (main_argv_spec (fun _ => false) argv))) "-d" H1).
Defined.

Lemma keys_are_opened_in_order_witness :
  let s := Toy.start Toy.damaged_store in
  iterKeyRange (store s) "sda" "objects" "objects/"
    = (["objects/a"; "objects/b"], None) /\
  opened (trace (audit_device "sda" s).2)
    = [("sda", "objects/a"); ("sda", "objects/b")].
Proof.
  intros s.
  assert (iterKeyRange (store s) "sda" "objects" "objects/"
          = (["objects/a"; "objects/b"], None)) as Hiter
    by (vm_compute; reflexivity).
  split; [exact Hiter|].
  refine (keys_are_opened_in_order "sda" "sda" "sda" _ None s eq_refl _ Hiter _).
  - vm_compute. reflexivity.
  - intros st location _. reflexivity.
Defined.


End Instances.

Section FaultyInstances.
#[local] Existing Instance Toy.platform.
#[local] Existing Instance Faulty.backend.
Open Scope string_scope.


Lemma unparsable_length_is_a_failure_witness :
  let s := Faulty.start in
  let o := Faulty.no_length in
  streams (store s) "sda" "objects/nolen" ("sda", "objects/nolen")
          (Faulty.headers o) (Faulty.body o) /\
  int_of_header (Faulty.headers o !! "Content-Length") = Raise TypeError /\
  let s' := (audit_location "sda" "objects/nolen" s).2 in
  stats_get "failures" (counters (self s'))
    = stats_get "failures" (counters (self s)) + 1 /\
  stats_get "success" (counters (self s'))
    = stats_get "success" (counters (self s)).
Proof.
  intros s o.
  assert (streams (store s) "sda" "objects/nolen" ("sda", "objects/nolen")
                  (Faulty.headers o) (Faulty.body o)) as Hstr.
  { repeat split; vm_compute; reflexivity. }
  assert (int_of_header (Faulty.headers o !! "Content-Length") = Raise TypeError)
    as Hlen by (vm_compute; reflexivity).
  split; [exact Hstr|]. split; [exact Hlen|].
  exact (proj2 (unparsable_length_is_a_failure "sda" "objects/nolen" _ _ _ _ s
                  Hstr Hlen)).
Defined.



Lemma run_forever_stops_on_bad_ring_witness :
  let s := Faulty.start in
  let s' := (run_forever 3 None s).2 in
  devices_for None (swift_dir (self s)) = Raise (KeyError "device") /\
  (run_forever 3 None s).1 = Raise (KeyError "device") /\
  recons (trace s') = recons (trace s).
Proof.
  intros s s'.
  assert (devices_for None (swift_dir (self s)) = Raise (KeyError "device"))
    as Hdev by (vm_compute; reflexivity).
  split; [exact Hdev|].
  pose proof (run_forever_stops_on_bad_ring 2 None _ s Hdev) as H.
  cbv zeta in H. destruct H as (H1 & H2 & _). split; [exact H1 | exact H2].
Defined.

End FaultyInstances.
